(** * chess-python: the board engine of [chesslib/board.py]

    A shallow embedding of the [Board] class (a Python 2 [dict] subclass
    keyed by square names) together with the statements that the
    specification makes about it.

    Conventions of the embedding

    - Python [str] is [string]; Python [int] is [Z]; [None] is the [None] of
      an [option].
    - The dictionary part of a [Board] is a [gmap] from keys to values.  A
      key is a square name or [None] ([load] can store under [None]), a value
      is a piece or [None] ([_do_move] can store [None]).
    - A raised exception is [inl e].  Methods that assign to [self] live in a
      state-and-exception monad whose state survives a raise, as an object
      does in Python.
    - [history] is an attribute of the class, not of an instance; it is kept
      apart from the instance record. *)

From Stdlib Require Import ZArith String Ascii List Lia.
From Stdlib Require Import Decimal DecimalString DecimalPos DecimalZ.
From stdpp Require Import base option list gmap strings fin_maps.

Local Open Scope Z_scope.
Local Open Scope string_scope.

(** ** Exceptions and results *)

Inductive Exc : Type :=
| KeyError
| AttributeError
| TypeError
| IndexError
| ValueError
| InvalidCoord
| InvalidColor
| InvalidMove
| NotYourTurn (msg : string)
| UnknownPiece.

Definition Res (A : Type) : Type := (Exc + A)%type.

Definition rbind {A B : Type} (r : Res A) (k : A -> Res B) : Res B :=
  match r with
  | inl e => inl e
  | inr a => k a
  end.

Notation "x <~ r ; k" := (rbind r (fun x => k))
  (at level 20, r at level 100, k at level 200, only parsing).

Fixpoint rmap {A B : Type} (f : A -> Res B) (l : list A) : Res (list B) :=
  match l with
  | [] => inr []
  | a :: l' => b <~ f a; bs <~ rmap f l'; inr (b :: bs)
  end.

(** The monad of methods: the state is kept when an exception is raised. *)

Definition M (S A : Type) : Type := S -> Res A * S.

Definition ret {S A : Type} (a : A) : M S A := fun s => (inr a, s).

Definition raise {S A : Type} (e : Exc) : M S A := fun s => (inl e, s).

Definition bind {S A B : Type} (m : M S A) (k : A -> M S B) : M S B :=
  fun s => match m s with
           | (inl e, s') => (inl e, s')
           | (inr a, s') => k a s'
           end.

Definition lift {S A : Type} (r : Res A) : M S A := fun s => (r, s).

Definition gets {S A : Type} (f : S -> A) : M S A := fun s => (inr (f s), s).

Definition modify {S : Type} (f : S -> S) : M S unit := fun s => (inr tt, f s).

Notation "x <- m ; k" := (bind m (fun x => k))
  (at level 20, m at level 100, k at level 200, only parsing).
Notation "m >> k" := (bind m (fun _ => k))
  (at level 100, k at level 200, right associativity, only parsing).

Fixpoint forM_ {S A : Type} (f : A -> M S unit) (l : list A) : M S unit :=
  match l with
  | [] => ret tt
  | a :: l' => f a >> forM_ f l'
  end.

(** ** Python strings *)

Module py.

Definition is_lower (c : ascii) : bool :=
  ((97 <=? nat_of_ascii c) && (nat_of_ascii c <=? 122))%nat.

Definition is_upper (c : ascii) : bool :=
  ((65 <=? nat_of_ascii c) && (nat_of_ascii c <=? 90))%nat.

Definition is_digit (c : ascii) : bool :=
  ((48 <=? nat_of_ascii c) && (nat_of_ascii c <=? 57))%nat.

Definition upper_char (c : ascii) : ascii :=
  if is_lower c then ascii_of_nat (nat_of_ascii c - 32) else c.

Definition lower_char (c : ascii) : ascii :=
  if is_upper c then ascii_of_nat (nat_of_ascii c + 32) else c.

(** [s.upper()] and [s.lower()] of a byte string (ASCII letters only). *)
Fixpoint upper (s : string) : string :=
  match s with
  | EmptyString => EmptyString
  | String c s' => String (upper_char c) (upper s')
  end.

Fixpoint lower (s : string) : string :=
  match s with
  | EmptyString => EmptyString
  | String c s' => String (lower_char c) (lower s')
  end.

(** [str(n)] of an integer. *)
Definition str (n : Z) : string := NilEmpty.string_of_int (Z.to_int n).

(** The characters that [int(s)] strips at both ends. *)
Definition is_space (c : ascii) : bool :=
  ((nat_of_ascii c =? 32) || ((9 <=? nat_of_ascii c) && (nat_of_ascii c <=? 13)))%nat.

Fixpoint lstrip (s : string) : string :=
  match s with
  | EmptyString => EmptyString
  | String c s' => if is_space c then lstrip s' else s
  end.

Fixpoint rstrip (s : string) : string :=
  match s with
  | EmptyString => EmptyString
  | String c s' =>
      match rstrip s' with
      | EmptyString => if is_space c then EmptyString else String c EmptyString
      | r => String c r
      end
  end.

Definition digits (s : string) : Res Z :=
  match s with
  | EmptyString => inl ValueError
  | _ => match NilEmpty.uint_of_string s with
         | Some d => inr (Z.of_uint d)
         | None => inl ValueError
         end
  end.

(** [int(s)] in base ten: surrounding whitespace, an optional sign, then
    one or more decimal digits; anything else is a [ValueError]. *)
Definition int (s : string) : Res Z :=
  match rstrip (lstrip s) with
  | String "-" r => n <~ digits r; inr (- n)
  | String "+" r => digits r
  | r => digits r
  end.

(** [s.split(sep)] for a one-character separator: empty fields are kept. *)
Fixpoint split (sep : ascii) (s : string) : list string :=
  match s with
  | EmptyString => [EmptyString]
  | String c s' =>
      if Ascii.eqb c sep then EmptyString :: split sep s'
      else match split sep s' with
           | f :: fs => String c f :: fs
           | [] => [String c EmptyString]
           end
  end.

(** [sep.join(l)]. *)
Fixpoint join (sep : string) (l : list string) : string :=
  match l with
  | [] => EmptyString
  | [x] => x
  | x :: l' => x ++ sep ++ join sep l'
  end.

(** [l[i]] on a list, for a literal non-negative index. *)
Definition index {A : Type} (l : list A) (i : nat) : Res A :=
  match nth_error l i with
  | Some a => inr a
  | None => inl IndexError
  end.

(** [itertools.groupby(s)] on the characters of a string: the maximal runs
    of equal characters, each with its key. *)
Fixpoint groupby (s : string) : list (ascii * string) :=
  match s with
  | EmptyString => []
  | String c s' =>
      match groupby s' with
      | (k, g) :: gs =>
          if Ascii.eqb c k then (k, String c g) :: gs
          else (c, String c EmptyString) :: (k, g) :: gs
      | [] => [(c, String c EmptyString)]
      end
  end.

(** [re.compile(r'\d').sub(expand, s)] with
    [expand = lambda m: ' ' * int(m.group(0))]. *)
Definition digit_value (c : ascii) : nat := (nat_of_ascii c - 48)%nat.

Fixpoint spaces (n : nat) : string :=
  match n with
  | O => EmptyString
  | S n' => String " " (spaces n')
  end.

Fixpoint sub_digits (s : string) : string :=
  match s with
  | EmptyString => EmptyString
  | String c s' =>
      if is_digit c then spaces (digit_value c) ++ sub_digits s'
      else String c (sub_digits s')
  end.

End py.

(** ** The piece catalogue (module [pieces]) *)

Module pieces.

(** Modelled from the spec: the kinds of pieces, a closed set of six. *)
Inductive Kind : Type := Pawn | Knight | Bishop | Rook | Queen | King.

(** Modelled from the spec: the two colours. *)
Inductive Color : Type := white | black.

(** Modelled from the spec: module [pieces] is imported by [board.py] but is
    not part of the sources.  A piece has an immutable colour and a kind tag
    from pawn, knight, bishop, rook, queen, king. *)
Record Piece : Type := mkPiece { kind : Kind; side : Color }.

#[global] Instance Kind_eq_dec : EqDecision Kind.
Proof. solve_decision. Defined.

#[global] Instance Color_eq_dec : EqDecision Color.
Proof. solve_decision. Defined.

#[global] Instance Piece_eq_dec : EqDecision Piece.
Proof. solve_decision. Defined.

(** Modelled from the spec: [piece.color], as the strings that [board.py]
    compares colours with. *)
Definition color (p : Piece) : string :=
  match side p with
  | white => "white"
  | black => "black"
  end.

(** Modelled from the spec: the letter of a kind. *)
Definition letter (k : Kind) : ascii :=
  match k with
  | Pawn => "P"
  | Knight => "N"
  | Bishop => "B"
  | Rook => "R"
  | Queen => "Q"
  | King => "K"
  end%char.

(** Modelled from the spec: [piece.abbreviation] is the single character
    P/N/B/R/Q/K, uppercase for white and lowercase for black; [export]
    writes it unchanged into the serialized placement. *)
Definition abbreviation (p : Piece) : string :=
  match side p with
  | white => String (letter (kind p)) EmptyString
  | black => String (py.lower_char (letter (kind p))) EmptyString
  end.

(** Modelled from the spec: the kind that an uppercase letter denotes. *)
Definition kind_of_letter (c : ascii) : option Kind :=
  if Ascii.eqb c "P" then Some Pawn
  else if Ascii.eqb c "N" then Some Knight
  else if Ascii.eqb c "B" then Some Bishop
  else if Ascii.eqb c "R" then Some Rook
  else if Ascii.eqb c "Q" then Some Queen
  else if Ascii.eqb c "K" then Some King
  else None.

(** Modelled from the spec: [pieces.piece(letter)] builds the piece that a
    placement letter denotes (case gives the colour) and fails on a letter
    that denotes no piece. *)
Definition piece (c : ascii) : Res Piece :=
  match kind_of_letter (py.upper_char c) with
  | Some k => inr (mkPiece k (if py.is_upper c then white else black))
  | None => inl UnknownPiece
  end.

End pieces.

Export pieces.

(** ** The board *)

(** A key of the dictionary: a square name, or [None]. *)
Abbreviation key := (option string) (only parsing).

(** The per-instance state of a [Board]: the dictionary and the attributes
    that [load] and [move] assign on [self]. *)
Record Board : Type := mkBoard {
  squares : gmap (option string) (option Piece);
  player_turn : option string;
  castling : string;
  en_passant : string;
  halfmove_clock : Z;
  fullmove_number : Z;
  in_check : string * bool;
  in_mate : string * bool
}.

Definition set_squares (f : gmap (option string) (option Piece) ->
                            gmap (option string) (option Piece)) (b : Board) : Board :=
  mkBoard (f (squares b)) (player_turn b) (castling b) (en_passant b)
          (halfmove_clock b) (fullmove_number b) (in_check b) (in_mate b).

Definition set_player_turn (v : option string) (b : Board) : Board :=
  mkBoard (squares b) v (castling b) (en_passant b)
          (halfmove_clock b) (fullmove_number b) (in_check b) (in_mate b).

Definition set_castling (v : string) (b : Board) : Board :=
  mkBoard (squares b) (player_turn b) v (en_passant b)
          (halfmove_clock b) (fullmove_number b) (in_check b) (in_mate b).

Definition set_en_passant (v : string) (b : Board) : Board :=
  mkBoard (squares b) (player_turn b) (castling b) v
          (halfmove_clock b) (fullmove_number b) (in_check b) (in_mate b).

Definition set_halfmove_clock (v : Z) (b : Board) : Board :=
  mkBoard (squares b) (player_turn b) (castling b) (en_passant b)
          v (fullmove_number b) (in_check b) (in_mate b).

Definition set_fullmove_number (v : Z) (b : Board) : Board :=
  mkBoard (squares b) (player_turn b) (castling b) (en_passant b)
          (halfmove_clock b) v (in_check b) (in_mate b).

Definition set_in_check (v : string * bool) (b : Board) : Board :=
  mkBoard (squares b) (player_turn b) (castling b) (en_passant b)
          (halfmove_clock b) (fullmove_number b) v (in_mate b).

Definition set_in_mate (v : string * bool) (b : Board) : Board :=
  mkBoard (squares b) (player_turn b) (castling b) (en_passant b)
          (halfmove_clock b) (fullmove_number b) (in_check b) v.

(** The class body: the values an instance reads until it assigns its own.
    [history] is not here: no method assigns [self.history], so every
    instance reads the list of the class (see [Game]). *)
Definition class_defaults : Board :=
  mkBoard ∅ None "-" "-" 0 1 (EmptyString, false) (EmptyString, false).

(** What a method of one instance can touch: the instance and the
    [history] list of the class. *)
Record Game : Type := mkGame { self : Board; history : list string }.

Definition on_self {A : Type} (m : M Board A) : M Game A :=
  fun g => let (r, b) := m (self g) in (r, mkGame b (history g)).

Definition FEN_STARTING : string :=
  "rnbqkbnr/pppppppp/8/8/8/8/PPPPPPPP/RNBQKBNR w KQkq - 0 1".

(** [re.match(RANK_REGEX, s)] with [RANK_REGEX = ^[A-Z][1-8]$]; the [$] of
    Python also matches before a final newline. *)
Definition is_rank_digit (c : ascii) : bool :=
  ((49 <=? nat_of_ascii c) && (nat_of_ascii c <=? 56))%nat.

Definition RANK_REGEX (s : string) : bool :=
  match s with
  | String a (String d EmptyString) => py.is_upper a && is_rank_digit d
  | String a (String d (String nl EmptyString)) =>
      py.is_upper a && is_rank_digit d && Ascii.eqb nl "010"
  | _ => false
  end.

Definition axis_y : list ascii := ["A"; "B"; "C"; "D"; "E"; "F"; "G"; "H"]%char.
Definition axis_x : list Z := [1; 2; 3; 4; 5; 6; 7; 8].

Definition is_in_bounds (coord : Z * Z) : bool :=
  if ((snd coord <? 0) || (snd coord >? 7) || (fst coord <? 0) || (fst coord >? 7))%Z
  then false else true.

(** [letter_notation]: [None] when out of bounds.  Inside the bounds both
    tuple lookups succeed, so the [IndexError] handler never runs. *)
Definition letter_notation (coord : Z * Z) : Res (option string) :=
  if negb (is_in_bounds coord) then inr None
  else match nth_error axis_y (Z.to_nat (snd coord)),
             nth_error axis_x (Z.to_nat (fst coord)) with
       | Some l, Some n => inr (Some (String l (py.str n)))
       | _, _ => inl InvalidCoord
       end.

(** An argument of [__getitem__]: a string, a tuple or anything else (of
    which the engine only ever passes [None]). *)
Inductive Coord : Type :=
| CNone
| CStr (s : string)
| CTuple (t : Z * Z).

Definition coord_of_key (k : key) : Coord :=
  match k with
  | None => CNone
  | Some s => CStr s
  end.

(** [dict.__getitem__] with the [KeyError] handler of [__getitem__]. *)
Definition dict_get (b : Board) (k : key) : option Piece :=
  match squares b !! k with
  | Some v => v
  | None => None
  end.

Definition getitem (b : Board) (coord : Coord) : Res (option Piece) :=
  match coord with
  | CStr s =>
      let coord := py.upper s in
      if negb (RANK_REGEX (py.upper coord)) then inl KeyError
      else inr (dict_get b (Some coord))
  | CTuple t =>
      coord <~ letter_notation t;
      inr (dict_get b coord)
  | CNone => inr (dict_get b None)
  end.

Definition get_enemy (color : string) : string :=
  if String.eqb color "white" then "black" else "white".

Definition valid_color (color : string) : bool :=
  String.eqb color "black" || String.eqb color "white".

(** [obj.attr] on a value that may be [None]. *)
Definition attr {A B : Type} (f : A -> B) (o : option A) : Res B :=
  match o with
  | Some a => inr (f a)
  | None => inl AttributeError
  end.

Definition is_king (p : option Piece) : bool :=
  match p with
  | Some pc => bool_decide (kind pc = King)
  | None => false
  end.

(** A read of [self] that may raise. *)
Definition call {S A : Type} (f : S -> Res A) : M S A := fun s => (f s, s).

(** [self.keys()].  Python 2 fixes no order for the keys of a dictionary;
    the order of [map_to_list] stands for it, and no statement below
    depends on which order it is. *)
Definition keys (b : Board) : list key := map fst (map_to_list (squares b)).

(** [enumerate] over the characters of a string and over a list. *)
Fixpoint enumerate_from {A : Type} (i : Z) (l : list A) : list (Z * A) :=
  match l with
  | [] => []
  | a :: l' => (i, a) :: enumerate_from (i + 1) l'
  end.

Definition enumerate {A : Type} (l : list A) : list (Z * A) := enumerate_from 0 l.

Section Engine.

(** Modelled from the spec: [piece.possible_moves(coord)], the pseudo-legal
    destinations of the piece standing on [coord], computed from the board
    the piece was placed on.  The per-kind movement rules live in module
    [pieces], which is not part of the sources; the engine is stated over
    any catalogue. *)
Variable possible_moves : Board -> Piece -> key -> list string.

(** [_do_move]: move a piece without validation. *)
Definition _do_move (p1 p2 : key) : M Board unit :=
  piece <- call (fun b => getitem b (coord_of_key p1));
  present <- gets (fun b => bool_decide (is_Some (squares b !! p1)));
  (if present : bool then modify (set_squares (delete p1)) else raise KeyError) >>
  modify (set_squares (insert p2 piece)).

(** [_finish_move]: set next player turn, count moves, log moves. *)
Definition _finish_move (piece : Piece) (dest : option Piece) (p2 : string)
  : M Game unit :=
  let enemy := get_enemy (color piece) in
  (if String.eqb (color piece) "black"
   then on_self (modify (fun b => set_fullmove_number (fullmove_number b + 1) b))
   else ret tt) >>
  on_self (modify (fun b => set_halfmove_clock (halfmove_clock b + 1) b)) >>
  on_self (modify (set_player_turn (Some enemy))) >>
  abbr <- (if String.eqb (abbreviation piece) "P"
           then on_self (modify (set_halfmove_clock 0)) >> ret EmptyString
           else ret (abbreviation piece));
  movetext <- match dest with
              | None => ret (abbr ++ py.lower p2)
              | Some _ =>
                  let movetext := abbr ++ "x" ++ py.lower p2 in
                  on_self (modify (set_halfmove_clock 0)) >> ret movetext
              end;
  modify (fun g => mkGame (self g) (history g ++ [movetext])).

(** [all_possible_moves]: the side's possible moves; does not check for
    check.  [self[coord]] is read once here where the source reads it three
    times in a row. *)
Fixpoint all_possible_moves_loop (b : Board) (color : string) (result : list string)
  (ks : list key) : Res (list string) :=
  match ks with
  | [] => inr result
  | coord :: ks' =>
      p <~ getitem b (coord_of_key coord);
      match p with
      | Some pc =>
          if String.eqb (pieces.color pc) color then
            let moves := possible_moves b pc coord in
            match moves with
            | [] => all_possible_moves_loop b color result ks'
            | _ => all_possible_moves_loop b color (result ++ moves) ks'
            end
          else all_possible_moves_loop b color result ks'
      | None => all_possible_moves_loop b color result ks'
      end
  end.

Definition all_possible_moves (b : Board) (color : string) : Res (list string) :=
  if negb (valid_color color) then inl InvalidColor
  else all_possible_moves_loop b color [] (keys b).

(** [get_king_position]: the first key that holds a king of the colour;
    falling out of the loop returns [None]. *)
Fixpoint get_king_position_loop (b : Board) (color : string) (ks : list key)
  : Res key :=
  match ks with
  | [] => inr None
  | pos :: ks' =>
      p <~ getitem b (coord_of_key pos);
      if is_king p then
        c <~ attr pieces.color p;
        if String.eqb c color then inr pos
        else get_king_position_loop b color ks'
      else get_king_position_loop b color ks'
  end.

Definition get_king_position (b : Board) (color : string) : Res key :=
  get_king_position_loop b color (keys b).

Definition get_king (b : Board) (color : string) : Res (option Piece) :=
  if negb (valid_color color) then inl InvalidColor
  else
    pos <~ get_king_position b color;
    getitem b (coord_of_key pos).

(** [x in l] on a list of dictionary values. *)
Definition py_in (x : option Piece) (l : list (option Piece)) : bool :=
  existsb (fun y => bool_decide (y = x)) l.

Definition is_in_check (b : Board) (color : string) : Res bool :=
  if negb (valid_color color) then inl InvalidColor
  else
    king <~ get_king b color;
    let enemy := get_enemy color in
    moves <~ all_possible_moves b enemy;
    occupants <~ rmap (fun m => getitem b (CStr m)) moves;
    inr (py_in king occupants).

(** [is_in_check_after_move]: the move is made on a deep copy. *)
Definition is_in_check_after_move (b : Board) (p1 : key) (p2 : string) : Res bool :=
  let tmp := b in
  match _do_move p1 (Some p2) tmp with
  | (inl e, _) => inl e
  | (inr _, tmp) =>
      p <~ getitem b (coord_of_key p1);
      c <~ attr pieces.color p;
      is_in_check tmp c
  end.

(** [all_legal_piece_moves].  [pool.map] of pathos returns, in the order of
    its input, what [add_move] returns for each possible move: the move
    itself, or [None] where the function falls off its [if]. *)
Definition add_move_piece (b : Board) (piece : key) (move : string)
  : Res (option string) :=
  c <~ is_in_check_after_move b piece move;
  if c then inr None else inr (Some move).

Definition all_legal_piece_moves (b : Board) (piece : key)
  : Res (list (option string)) :=
  p <~ getitem b (coord_of_key piece);
  possible_piece_moves <~ attr (fun pc => possible_moves b pc piece) p;
  rmap (add_move_piece b piece) possible_piece_moves.

(** [all_legal_side_moves].  The closure [add_move] is handed to the worker
    processes of a [multiprocessing.Pool] with [apply_async] and the handles
    are dropped; a worker has its own copy of [result], so the dictionary
    that is returned is the one that was created. *)
Definition all_legal_side_moves (b : Board) (color : string)
  : Res (gmap (option string) (list (option string))) :=
  if negb (valid_color color) then inl InvalidColor
  else
    let result := ∅ in
    inr result.

(** What the body of [add_move] stores for one [coord] when it runs on the
    caller's own [result]. *)
Definition add_move_side (b : Board) (color : string)
  (result : gmap (option string) (list (option string))) (coord : key)
  : Res (gmap (option string) (list (option string))) :=
  p <~ getitem b (coord_of_key coord);
  match p with
  | Some pc =>
      if String.eqb (pieces.color pc) color then
        legal_moves <~ all_legal_piece_moves b coord;
        match legal_moves with
        | [] => inr result
        | _ => inr (<[coord := legal_moves]> result)
        end
      else inr result
  | None => inr result
  end.

(** [evaluate_board]: [None] stands for falling off the end. *)
Definition evaluate_board : M Board (option string) :=
  let board_status := EmptyString in
  flag <- gets in_check;
  if snd flag then
    let side_in_check := fst flag in
    modify (set_in_mate (side_in_check, true)) >>
    side_legal_moves <- call (fun b => all_legal_side_moves b side_in_check);
    if bool_decide (side_legal_moves = ∅) then
      modify (set_in_mate (EmptyString, false)) >> ret (Some board_status)
    else
      mate <- gets in_mate;
      if snd mate then ret (Some (side_in_check ++ " is in checkmate!"))
      else ret None
  else ret None.

Definition move (p1 p2 : string) : M Game unit :=
  let p1 := py.upper p1 in
  let p2 := py.upper p2 in
  piece <- call (fun g => getitem (self g) (CStr p1));
  dest <- call (fun g => getitem (self g) (CStr p2));
  turn <- gets (fun g => player_turn (self g));
  match piece with
  | None => raise AttributeError
  | Some pc =>
      (if negb (bool_decide (turn = Some (color pc)))
       then raise (NotYourTurn ("Not " ++ color pc ++ "'s turn!"))
       else ret tt) >>
      let enemy := get_enemy (color pc) in
      legal_moves <- call (fun g => all_legal_piece_moves (self g) (Some p1));
      (if negb (bool_decide (Some p2 ∈ legal_moves)) then raise InvalidMove
       else ret tt) >>
      on_self (_do_move (Some p1) (Some p2)) >>
      _finish_move pc dest p2 >>
      chk <- call (fun g => is_in_check (self g) enemy);
      if chk : bool then on_self (modify (set_in_check (enemy, true)))
      else on_self (modify (set_in_check (EmptyString, false)))
  end.

End Engine.

(** ** The state codec *)

(** One step of the inner loop of [load]. *)
Definition load_square (x : Z) (cell : Z * ascii) : M Board unit :=
  let (y, letter) := cell in
  if Ascii.eqb letter " " then ret tt
  else
    coord <- lift (letter_notation (7 - x, y));
    pc <- lift (piece letter);
    modify (set_squares (insert coord (Some pc))) >>
    placed <- call (fun b => getitem b (coord_of_key coord));
    lift (attr (fun _ : Piece => tt) placed).

Definition load_row (line : Z * string) : M Board unit :=
  let (x, row) := line in
  forM_ (load_square x) (enumerate (list_ascii_of_string row)).

(** [load]: import state from FEN notation. *)
Definition load (fen : string) : M Board unit :=
  modify (set_squares (fun _ => ∅)) >>
  let fen := py.split " " fen in
  f0 <- lift (py.index fen 0);
  let f0 := py.sub_digits f0 in
  forM_ load_row (enumerate (py.split "/" f0)) >>
  f1 <- lift (py.index fen 1);
  (if String.eqb f1 "w" then modify (set_player_turn (Some "white"))
   else modify (set_player_turn (Some "black"))) >>
  f2 <- lift (py.index fen 2);
  modify (set_castling f2) >>
  f3 <- lift (py.index fen 3);
  modify (set_en_passant f3) >>
  f4 <- lift (py.index fen 4);
  n4 <- lift (py.int f4);
  modify (set_halfmove_clock n4) >>
  f5 <- lift (py.index fen 5);
  n5 <- lift (py.int f5);
  modify (set_fullmove_number n5).

(** [__init__]. *)
Definition init (fen : option string) : M Board unit :=
  match fen with
  | None => load FEN_STARTING
  | Some fen => load fen
  end.

(** [Board(fen)]: a new, empty dictionary whose attributes are those of
    the class, initialised by [__init__]. *)
Definition new_Board (fen : option string) : Res Board :=
  match init fen class_defaults with
  | (inl e, _) => inl e
  | (inr _, b) => inr b
  end.

Definition join_group (kg : ascii * string) : string :=
  let (k, g) := kg in
  if Ascii.eqb k " " then py.str (Z.of_nat (String.length g)) else g.

Definition replace_spaces (row : string) : string :=
  String.concat EmptyString (map join_group (py.groupby row)).

Definition export_square (b : Board) (number : Z) (letter : ascii) : Res string :=
  piece <~ getitem b (CStr (String letter (py.str number)));
  match piece with
  | Some pc => inr (abbreviation pc)
  | None => inr " "
  end.

Definition export_rank (b : Board) (number : Z) : Res string :=
  cells <~ rmap (export_square b number) axis_y;
  inr (String.concat EmptyString cells ++ "/").

(** [s[:-1]]. *)
Fixpoint drop_last (s : string) : string :=
  match s with
  | EmptyString => EmptyString
  | String c EmptyString => EmptyString
  | String c s' => String c (drop_last s')
  end.

(** [self.player_turn[0]]. *)
Definition turn_letter (t : option string) : Res string :=
  match t with
  | None => inl TypeError
  | Some EmptyString => inl IndexError
  | Some (String c _) => inr (String c EmptyString)
  end.

(** [export]: export state to FEN notation. *)
Definition export (b : Board) : Res string :=
  ranks <~ rmap (export_rank b) (rev axis_x);
  let result := String.concat EmptyString ranks in
  let result := drop_last result in
  let result := replace_spaces result in
  t <~ turn_letter (player_turn b);
  inr (result ++ " " ++ py.join " " [t; castling b; en_passant b;
                                     py.str (halfmove_clock b);
                                     py.str (fullmove_number b)]).

(** ** Several boards in one interpreter *)

(** The objects of a run: the [history] list of class [Board] and the
    instances made so far, named by their position. *)
Record Process : Type := mkProcess {
  Board_history : list string;
  instances : list Board
}.

Definition fresh_process : Process := mkProcess [] [].

(** [Board(fen)] in a process: the new instance is appended. *)
Definition construct (fen : option string) (w : Process) : Res nat * Process :=
  match new_Board fen with
  | inl e => (inl e, w)
  | inr b => (inr (length (instances w)),
              mkProcess (Board_history w) (instances w ++ [b]))
  end.

(** A method call on instance [i]: it runs on that instance and on the
    list of the class, and both are written back. *)
Definition invoke {A : Type} (i : nat) (m : M Game A) (w : Process)
  : Res A * Process :=
  match instances w !! i with
  | None => (inl AttributeError, w)
  | Some b =>
      let (r, g) := m (mkGame b (Board_history w)) in
      (r, mkProcess (history g) (<[i := self g]> (instances w)))
  end.

(** [instance.history]: no instance has an attribute of that name of its
    own, so the lookup ends at the class. *)
Definition history_of (w : Process) (i : nat) : option (list string) :=
  match instances w !! i with
  | None => None
  | Some _ => Some (Board_history w)
  end.

(** [t.index(c)] on a tuple of characters. *)
Definition index_of (c : ascii) (l : list ascii) : Res Z :=
  match list_find (fun x => x = c) l with
  | Some (i, _) => inr (Z.of_nat i)
  | None => inl ValueError
  end.

(** [number_notation]: the zero-based (rank, file) pair of a square name;
    [None] is passed through. *)
Definition number_notation (coord : key) : Res (option (Z * Z)) :=
  match coord with
  | None => inr None
  | Some s =>
      match s with
      | String c0 (String c1 _) =>
          n <~ py.int (String c1 EmptyString);
          i <~ index_of c0 axis_y;
          inr (Some (n - 1, i))
      | _ => inl IndexError
      end
  end.

(** ** A catalogue to run the engine on *)

Module catalogue.

(** The movement rules live in module [pieces], which is not part of the
    sources.  The definitions of this module stand for them: the usual
    rules without castling, en passant and promotion, whose destinations are
    in bounds, differ from the origin and hold no piece of the mover's
    colour. *)

(** Modelled from the spec: the square that a (rank, file) pair names, with
    its occupant, when the pair is in bounds. *)
Definition target (b : Board) (t : Z * Z) : option (string * option Piece) :=
  match letter_notation t with
  | inr (Some s) => Some (s, dict_get b (Some s))
  | _ => None
  end.

(** Modelled from the spec: [q] is of the other colour than [pc]. *)
Definition enemy_of (pc : Piece) (q : Piece) : bool :=
  negb (bool_decide (side q = side pc)).

(** Modelled from the spec: one step from a square. *)
Definition shift (from d : Z * Z) : Z * Z := (fst from + fst d, snd from + snd d).

(** Modelled from the spec: a single step or jump, onto an empty square or
    an enemy piece. *)
Definition step (b : Board) (pc : Piece) (from d : Z * Z) : list string :=
  match target b (shift from d) with
  | Some (s, None) => [s]
  | Some (s, Some q) => if enemy_of pc q then [s] else []
  | None => []
  end.

(** Modelled from the spec: a slide in one direction, up to and including
    the first enemy piece. *)
Fixpoint ray (b : Board) (pc : Piece) (fuel : nat) (from d : Z * Z) : list string :=
  match fuel with
  | O => []
  | S fuel' =>
      match target b (shift from d) with
      | Some (s, None) => s :: ray b pc fuel' (shift from d) d
      | Some (s, Some q) => if enemy_of pc q then [s] else []
      | None => []
      end
  end.

(** Modelled from the spec: the directions of the pieces. *)
Definition orthogonal : list (Z * Z) := [(-1, 0); (0, -1); (0, 1); (1, 0)].

(** Modelled from the spec: the diagonal directions. *)
Definition diagonal : list (Z * Z) := [(-1, -1); (-1, 1); (1, -1); (1, 1)].

(** Modelled from the spec: the jumps of a knight. *)
Definition jumps : list (Z * Z) :=
  [(-2, -1); (-2, 1); (-1, -2); (-1, 2); (1, -2); (1, 2); (2, -1); (2, 1)].

(** Modelled from the spec: a pawn advances one square, two from its home
    rank, onto empty squares, and captures diagonally. *)
Definition pawn_moves (b : Board) (pc : Piece) (from : Z * Z) : list string :=
  let dir := match side pc with white => 1 | black => -1 end in
  let home := match side pc with white => 1 | black => 6 end in
  let forward :=
    match target b (shift from (dir, 0)) with
    | Some (s, None) =>
        s :: (if (fst from =? home)%Z then
                match target b (shift from (2 * dir, 0)) with
                | Some (s2, None) => [s2]
                | _ => []
                end
              else [])
    | _ => []
    end in
  let capture dc :=
    match target b (shift from (dir, dc)) with
    | Some (s, Some q) => if enemy_of pc q then [s] else []
    | _ => []
    end in
  forward ++ capture (-1) ++ capture 1.

(** Modelled from the spec: the destinations of a piece by kind. *)
Definition moves_from (b : Board) (pc : Piece) (from : Z * Z) : list string :=
  match kind pc with
  | Pawn => pawn_moves b pc from
  | Knight => flat_map (step b pc from) jumps
  | King => flat_map (step b pc from) (orthogonal ++ diagonal)
  | Rook => flat_map (ray b pc 7 from) orthogonal
  | Bishop => flat_map (ray b pc 7 from) diagonal
  | Queen => flat_map (ray b pc 7 from) (orthogonal ++ diagonal)
  end.

(** Modelled from the spec: [piece.possible_moves(coord)] for the usual
    rules; a position that names no square has no destinations. *)
Definition possible_moves (b : Board) (pc : Piece) (coord : key) : list string :=
  match number_notation coord with
  | inr (Some from) => if is_in_bounds from then moves_from b pc from else []
  | _ => []
  end.

End catalogue.

(** ** Positions used below *)

(** The board that [Board()] builds. *)
Definition start_board : Board :=
  match new_Board None with
  | inr b => b
  | inl _ => class_defaults
  end.

(** The board that [Board(fen)] builds, for a string that loads. *)
Definition board_of_fen (fen : string) : Board :=
  match new_Board (Some fen) with
  | inr b => b
  | inl _ => class_defaults
  end.

(** The state after a call of [move] under the usual rules. *)
Definition play (p1 p2 : string) (g : Game) : Game :=
  snd (move catalogue.possible_moves p1 p2 g).

(** After 1. Nf3. *)
Definition after_Nf3 : Game := play "G1" "F3" (mkGame start_board []).

(** After 1. f3 e5 2. g4 Qh4, the shortest mate. *)
Definition fools_mate : Game :=
  play "D8" "H4" (play "G2" "G4" (play "E7" "E5" (play "F2" "F3"
    (mkGame start_board [])))).

(** A black king alone. *)
Definition lone_black_king : Board := board_of_fen "4k3/8/8/8/8/8/8/8 w - - 0 1".

(** A white rook pinned to its king by a black rook. *)
Definition pinned_rook : Board :=
  board_of_fen "4r2k/8/8/8/8/8/4R3/4K3 w - - 0 1".

(** ** Predicates of the statements *)

(** The names of the sixty-four squares. *)
Definition is_file (c : ascii) : bool :=
  ((65 <=? nat_of_ascii c) && (nat_of_ascii c <=? 72))%nat.

Definition is_square (s : string) : bool :=
  match s with
  | String a (String d EmptyString) => is_file a && is_rank_digit d
  | _ => false
  end.

(** The contract of the catalogue: its destinations are squares of the
    board. *)
Definition in_bounds (pm : Board -> Piece -> key -> list string) : Prop :=
  forall b pc k d, In d (pm b pc k) -> is_square d = true.

(** The keys are squares and no value is [None]. *)
Definition wf_entry (k : key) (v : option Piece) : bool :=
  match k, v with
  | Some s, Some _ => is_square s
  | _, _ => false
  end.

Definition wf_squares (b : Board) : Prop :=
  map_Forall (fun k v => wf_entry k v = true) (squares b).

Fixpoint all_chars (p : ascii -> bool) (s : string) : bool :=
  match s with
  | EmptyString => true
  | String c s' => p c && all_chars p s'
  end.

Definition lacks (c : ascii) (s : string) : bool :=
  all_chars (fun x => negb (Ascii.eqb x c)) s.

Definition no_space (s : string) : bool := lacks " " s.

Definition no_digit (s : string) : bool :=
  all_chars (fun x => negb (py.is_digit x)) s.

(** [n] times the character [c]. *)
Fixpoint run (c : ascii) (n : nat) : string :=
  match n with
  | O => EmptyString
  | S n' => String c (run c n')
  end.

(** A board as [load] and [move] leave it. *)
Definition canonical (b : Board) : Prop :=
  wf_squares b /\
  (player_turn b = Some "white" \/ player_turn b = Some "black") /\
  no_space (castling b) = true /\
  no_space (en_passant b) = true.

(** [__getitem__] does not raise on this key. *)
Definition key_passes (k : key) : bool :=
  match k with
  | Some s => RANK_REGEX (py.upper (py.upper s))
  | None => true
  end.

(** No king of the colour stands anywhere in the dictionary. *)
Definition king_of (color : string) (v : option Piece) : bool :=
  match v with
  | Some pc => bool_decide (kind pc = King) && String.eqb (pieces.color pc) color
  | None => false
  end.

Definition no_king (b : Board) (color : string) : Prop :=
  map_Forall (fun _ v => king_of color v = false) (squares b).

(** The square named [m] holds nothing. *)
Definition empty_square (b : Board) (m : string) : bool :=
  match dict_get b (Some m) with
  | Some _ => false
  | None => true
  end.

(** The boards that a game can show: the starting position, whatever the
    list of the class holds by then, and what successful moves make of it. *)
Inductive reachable (pm : Board -> Piece -> key -> list string) : Game -> Prop :=
| reachable_start (h : list string) : reachable pm (mkGame start_board h)
| reachable_move (g g' : Game) (p1 p2 : string) :
    reachable pm g ->
    move pm p1 p2 g = (inr tt, g') ->
    reachable pm g'.

(** The cells of the board in the order of [export]. *)
Definition cell_char (o : option Piece) : ascii :=
  match o with
  | Some pc => match abbreviation pc with
               | String c _ => c
               | EmptyString => " "%char
               end
  | None => " "%char
  end.

Definition put_cell (k : key) (o : option Piece)
  (m : gmap (option string) (option Piece)) : gmap (option string) (option Piece) :=
  match o with
  | Some pc => <[k := Some pc]> m
  | None => m
  end.

Definition square_key (x y : Z) : key :=
  match letter_notation (7 - x, y) with
  | inr k => k
  | inl _ => None
  end.

Definition all_squares : list key :=
  flat_map (fun x => map (square_key x) [0; 1; 2; 3; 4; 5; 6; 7])
           [0; 1; 2; 3; 4; 5; 6; 7].

(** What [load] makes of the rows of a placement, cell by cell. *)
Fixpoint fill_row (x y0 : Z) (os : list (option Piece))
  (m : gmap (option string) (option Piece)) : gmap (option string) (option Piece) :=
  match os with
  | [] => m
  | o :: os' => fill_row x (y0 + 1) os' (put_cell (square_key x y0) o m)
  end.

Fixpoint fill_rows (x0 : Z) (oss : list (list (option Piece)))
  (m : gmap (option string) (option Piece)) : gmap (option string) (option Piece) :=
  match oss with
  | [] => m
  | os :: oss' => fill_rows (x0 + 1) oss' (fill_row x0 0 os m)
  end.

Definition row_string (os : list (option Piece)) : string :=
  string_of_list_ascii (map cell_char os).

Definition grid (b : Board) : list (list (option Piece)) :=
  map (fun x => map (fun y => dict_get b (square_key x y)) [0; 1; 2; 3; 4; 5; 6; 7])
      [0; 1; 2; 3; 4; 5; 6; 7].

(** The key that [__getitem__] looks up for a key of the dictionary. *)
Definition norm_key (k : key) : key :=
  match k with
  | Some s => Some (py.upper s)
  | None => None
  end.

(** No entry of the list is a move. *)
Definition no_move (r : Res (list (option string))) : bool :=
  match r with
  | inr l => forallb (fun o => bool_decide (o = None)) l
  | inl _ => false
  end.

(** Two boards made one after the other, and 1. e4 played on the first. *)
Definition two_boards : Process :=
  snd (construct None (snd (construct None fresh_process))).

Definition after_e4_on_first : Process :=
  snd (invoke 0 (move catalogue.possible_moves "E2" "E4") two_boards).

(** The dictionary that holds, for each key of a list, what a board holds
    there. *)
Definition refill (b : Board) (ks : list key)
  (m : gmap (option string) (option Piece)) : gmap (option string) (option Piece) :=
  fold_left (fun m k => put_cell k (dict_get b k) m) ks m.

(** How many entries of the list are moves. *)
Definition count_moves (r : Res (list (option string))) : nat :=
  match r with
  | inr l => length (filter (fun o => is_Some o) l)
  | inl _ => O
  end.

(** ** Further methods of the board *)

(** [occupied]: the coordinates occupied by a colour.  The colour is
    checked after the result list is made; a key whose lookup gives [None]
    ends the loop with [AttributeError]. *)
Fixpoint occupied_loop (b : Board) (color : string) (result : list key)
  (ks : list key) : Res (list key) :=
  match ks with
  | [] => inr result
  | coord :: ks' =>
      p <~ getitem b (coord_of_key coord);
      c <~ attr pieces.color p;
      if String.eqb c color then occupied_loop b color (result ++ [coord]) ks'
      else occupied_loop b color result ks'
  end.

Definition occupied (b : Board) (color : string) : Res (list key) :=
  let result := [] in
  if negb (valid_color color) then inl InvalidColor
  else occupied_loop b color result (keys b).

(** A catalogue that looks at the dictionary of the board only. *)
Definition squares_only (pm : Board -> Piece -> key -> list string) : Prop :=
  forall b1 b2, squares b1 = squares b2 ->
                forall pc k, pm b1 pc k = pm b2 pc k.

(** The record that [_finish_move] appends to the history. *)
Definition movetext (pc : Piece) (dest : option Piece) (p2 : string) : string :=
  (if String.eqb (abbreviation pc) "P" then EmptyString else abbreviation pc) ++
  match dest with
  | None => py.lower p2
  | Some _ => "x" ++ py.lower p2
  end.

(** An entry of the dictionary as [load] stores it: under a square or under
    [None], and never the value [None]. *)
Definition loaded_entry (k : key) (v : option Piece) : bool :=
  match k, v with
  | Some s, Some _ => is_square s
  | None, Some _ => true
  | _, None => false
  end.

(** The attributes of the second board are those of the first; the
    dictionaries may differ. *)
Definition same_attributes (b b' : Board) : Prop :=
  player_turn b' = player_turn b /\ castling b' = castling b /\
  en_passant b' = en_passant b /\ halfmove_clock b' = halfmove_clock b /\
  fullmove_number b' = fullmove_number b /\
  in_check b' = in_check b /\ in_mate b' = in_mate b.

(** What one step of [load] keeps: the attributes, and that the entries of
    the dictionary are pieces under squares or under [None]. *)
Definition load_keeps (b b' : Board) : Prop :=
  same_attributes b b' /\
  (map_Forall (fun k v => loaded_entry k v = true) (squares b) ->
   map_Forall (fun k v => loaded_entry k v = true) (squares b')).

(** ** The display *)

Module gui.

(** An integer division of Python 2 on a value that may be zero. *)
Inductive Outcome (A : Type) : Type :=
| ZeroDivisionError
| Returned (a : A).

Arguments ZeroDivisionError {A}.
Arguments Returned {A} a.

(** The square that [click] computes from the pixel of the event:
    [event.x / col_size] and [7 - event.y / row_size] with the floor
    division of Python 2, then [letter_notation]. *)
Definition click_position (square_size x y : Z) : Outcome (Res (option string)) :=
  let col_size := square_size in
  let row_size := square_size in
  if (col_size =? 0)%Z then ZeroDivisionError
  else
    let current_column := (x / col_size)%Z in
    let current_row := (7 - y / row_size)%Z in
    Returned (letter_notation (current_row, current_column)).

End gui.

(** * Statements *)

(** ** Square names *)

Lemma upper_char_idem (c : ascii) : py.upper_char (py.upper_char c) = py.upper_char c.
Proof. destruct c as [[] [] [] [] [] [] [] []]; reflexivity. Qed.

Lemma upper_idem (s : string) : py.upper (py.upper s) = py.upper s.
Proof.
  induction s as [|c s IH]; simpl; [reflexivity|].
  now rewrite upper_char_idem, IH.
Qed.

Lemma getitem_upper (b : Board) (s : string) :
  getitem b (CStr s) = getitem b (CStr (py.upper s)).
Proof. unfold getitem. now rewrite !upper_idem. Qed.

(** C10: square names are case-insensitive at the interface.  Looking up
    [s] gives what looking up [s.upper()] gives, and [move] called with any
    spelling of its two squares is the call with the uppercase spelling:
    same result, same state afterwards.  This holds for every string, so in
    particular for a letter in A-H or a-h followed by a digit 1-8. *)
Theorem square_names_case_insensitive
  (pm : Board -> Piece -> key -> list string) (b : Board) (g : Game)
  (s p1 p2 : string) :
  getitem b (CStr s) = getitem b (CStr (py.upper s)) /\
  move pm p1 p2 g = move pm (py.upper p1) (py.upper p2) g.
Proof.
  split; [apply getitem_upper|].
  unfold move. now rewrite !upper_idem.
Qed.

Example lowercase_lookup :
  getitem start_board (CStr "e2") = inr (Some (mkPiece Pawn white)) /\
  getitem start_board (CStr "E2") = inr (Some (mkPiece Pawn white)).
Proof. split; reflexivity. Qed.

(** The starting position under the usual rules: twenty legal moves for
    white, nobody in check. *)
Example start_has_twenty_moves :
  fold_right (fun k n =>
                match dict_get start_board k with
                | Some pc =>
                    if String.eqb (color pc) "white"
                    then (count_moves (all_legal_piece_moves catalogue.possible_moves
                                         start_board k) + n)%nat
                    else n
                | None => n
                end) O (keys start_board) = 20%nat /\
  is_in_check catalogue.possible_moves start_board "white" = inr false /\
  is_in_check catalogue.possible_moves start_board "black" = inr false.
Proof. vm_compute. repeat split. Qed.

Example fools_mate_position :
  export (self fools_mate)
  = inr "rnb1kbnr/pppp1ppp/8/4p3/6Pq/5P2/PPPPP2P/RNBQKBNR w KQkq - 1 3" /\
  history fools_mate = ["f3"; "pe5"; "g4"; "qh4"].
Proof. vm_compute. split; reflexivity. Qed.

(** ** Moving from an empty square *)

Lemma move_empty_origin (pm : Board -> Piece -> key -> list string) (g : Game)
  (p1 p2 : string) (d : option Piece) :
  getitem (self g) (CStr (py.upper p1)) = inr None ->
  getitem (self g) (CStr (py.upper p2)) = inr d ->
  move pm p1 p2 g = (inl AttributeError, g).
Proof.
  intros H1 H2. unfold move, bind, call, gets, raise.
  now rewrite H1, H2.
Qed.

(** C5: [move] from an unoccupied origin.  On the starting position the
    square E4 is empty; [move("E4", "E5")] raises [AttributeError], which
    comes from reading [piece.color] in the test of the turn, and not
    [InvalidMove].  The board and the history are as before. *)
Theorem move_from_empty_square_raises_AttributeError :
  getitem start_board (CStr "E4") = inr None /\
  move catalogue.possible_moves "E4" "E5" (mkGame start_board [])
  = (inl AttributeError, mkGame start_board []).
Proof.
  split; [reflexivity|].
  now apply move_empty_origin with (d := None).
Qed.

(** ** The halfmove clock *)

Lemma finish_move_clock (pc : Piece) (dest : option Piece) (p2 : string) (g : Game) :
  exists g', _finish_move pc dest p2 g = (inr tt, g') /\
    squares (self g') = squares (self g) /\
    halfmove_clock (self g') =
      (if String.eqb (abbreviation pc) "P" then 0
       else match dest with
            | Some _ => 0
            | None => halfmove_clock (self g) + 1
            end).
Proof.
  destruct g as [b h], pc as [k c].
  destruct k, c, dest; eexists; (split; [reflexivity|]); split; reflexivity.
Qed.

(** The comparison with ["P"] holds for the white pawn only. *)
Lemma abbreviation_is_P (pc : Piece) :
  String.eqb (abbreviation pc) "P" = true <-> pc = mkPiece Pawn white.
Proof. destruct pc as [[] []]; simpl; split; intros H; try discriminate; reflexivity. Qed.

(** C6: the halfmove clock after a pawn move.  After 1. Nf3 the clock is 1.
    Black then plays the pawn from E7 to the empty square E5; the move
    succeeds and the clock is 2, not 0: the abbreviation of a black pawn is
    ["p"], which [_finish_move] compares with ["P"]. *)
Theorem black_pawn_move_keeps_halfmove_clock :
  getitem (self after_Nf3) (CStr "E7") = inr (Some (mkPiece Pawn black)) /\
  getitem (self after_Nf3) (CStr "E5") = inr None /\
  halfmove_clock (self after_Nf3) = 1 /\
  fst (move catalogue.possible_moves "E7" "E5" after_Nf3) = inr tt /\
  halfmove_clock (self (snd (move catalogue.possible_moves "E7" "E5" after_Nf3))) = 2.
Proof. vm_compute. repeat split. Qed.

(** ** Mate evaluation *)

Lemma all_legal_side_moves_empty (b : Board) (color : string) :
  valid_color color = true -> all_legal_side_moves b color = inr ∅.
Proof. intros H. unfold all_legal_side_moves. now rewrite H. Qed.

Lemma all_legal_side_moves_invalid (b : Board) (color : string) :
  valid_color color = false -> all_legal_side_moves b color = inl InvalidColor.
Proof. intros H. unfold all_legal_side_moves. now rewrite H. Qed.

(** Whenever a side is flagged, the status is the empty string. *)
Lemma evaluate_board_flagged (b : Board) :
  snd (in_check b) = true ->
  valid_color (fst (in_check b)) = true ->
  evaluate_board b = (inr (Some EmptyString), set_in_mate (EmptyString, false) b).
Proof.
  intros Hc Hv. unfold evaluate_board, bind, gets, modify, call, ret.
  rewrite Hc. simpl. rewrite (all_legal_side_moves_empty _ _ Hv).
  destruct b; reflexivity.
Qed.


(** C1: the status of a mated position.  After 1. f3 e5 2. g4 Qh4 [move]
    has flagged white as in check, white is in check, and no white piece has
    a move that escapes it; [evaluate_board] returns the empty status and
    clears the mate flag, where the specification asks for white's
    checkmate. *)
Theorem evaluate_board_misses_checkmate :
  in_check (self fools_mate) = ("white", true) /\
  is_in_check catalogue.possible_moves (self fools_mate) "white" = inr true /\
  forallb (fun k =>
             match dict_get (self fools_mate) k with
             | Some pc =>
                 negb (String.eqb (color pc) "white") ||
                 no_move (all_legal_piece_moves catalogue.possible_moves
                            (self fools_mate) k)
             | None => true
             end) (keys (self fools_mate)) = true /\
  evaluate_board (self fools_mate)
  = (inr (Some EmptyString), set_in_mate (EmptyString, false) (self fools_mate)).
Proof.
  split; [vm_compute; reflexivity|].
  split; [vm_compute; reflexivity|].
  split; [vm_compute; reflexivity|].
  apply evaluate_board_flagged; vm_compute; reflexivity.
Qed.

(** C2: the legal moves of a side.  On the starting position the white
    pawn on E2 has the legal moves E3 and E4, yet the dictionary returned
    for white is empty: the work handed to the pool never reaches it. *)
Theorem all_legal_side_moves_returns_nothing :
  getitem start_board (CStr "E2") = inr (Some (mkPiece Pawn white)) /\
  all_legal_piece_moves catalogue.possible_moves start_board (Some "E2")
  = inr [Some "E3"; Some "E4"] /\
  add_move_side catalogue.possible_moves start_board "white" ∅ (Some "E2")
  = inr {[ Some "E2" := [Some "E3"; Some "E4"] ]} /\
  all_legal_side_moves start_board "white" = inr ∅.
Proof. vm_compute. repeat split. Qed.

(** ** The history of the class *)


(** C8: the history is shared.  Two boards are made; 1. e4 is played on the
    first.  The history read from the second board, on which nothing was
    played, is then [e4], and so is the history of a board constructed
    afterwards. *)
Theorem history_is_shared_between_boards :
  history_of two_boards 1 = Some [] /\
  fst (invoke 0 (move catalogue.possible_moves "E2" "E4") two_boards) = inr tt /\
  history_of after_e4_on_first 1 = Some ["e4"] /\
  history_of (snd (construct None after_e4_on_first)) 2 = Some ["e4"].
Proof. vm_compute. repeat split. Qed.

(** ** Reading the dictionary *)


Lemma getitem_key (b : Board) (k : key) :
  getitem b (coord_of_key k) =
  if key_passes k then inr (dict_get b (norm_key k)) else inl KeyError.
Proof.
  destruct k as [s|]; simpl; [|reflexivity].
  now destruct (RANK_REGEX (py.upper (py.upper s))).
Qed.

Lemma is_square_chars (s : string) :
  is_square s = true ->
  exists a d, s = String a (String d EmptyString) /\
              is_file a = true /\ is_rank_digit d = true.
Proof.
  destruct s as [|a [|d [|? ?]]]; simpl; try discriminate.
  intros H. apply andb_true_iff in H. exists a, d. tauto.
Qed.

Lemma is_file_upper (a : ascii) :
  is_file a = true -> py.upper_char a = a /\ py.is_upper a = true.
Proof. destruct a as [[] [] [] [] [] [] [] []]; simpl; intros H; try discriminate; split; reflexivity. Qed.

Lemma is_rank_digit_upper (d : ascii) :
  is_rank_digit d = true -> py.upper_char d = d.
Proof. destruct d as [[] [] [] [] [] [] [] []]; simpl; intros H; try discriminate; reflexivity. Qed.

Lemma is_square_upper (s : string) : is_square s = true -> py.upper s = s.
Proof.
  intros H. destruct (is_square_chars s H) as (a & d & -> & Ha & Hd). simpl.
  destruct (is_file_upper a Ha) as [-> _]. now rewrite (is_rank_digit_upper d Hd).
Qed.

Lemma is_square_regex (s : string) : is_square s = true -> RANK_REGEX s = true.
Proof.
  intros H. destruct (is_square_chars s H) as (a & d & -> & Ha & Hd). simpl.
  destruct (is_file_upper a Ha) as [_ ->]. now rewrite Hd.
Qed.

Lemma is_square_passes (s : string) : is_square s = true -> key_passes (Some s) = true.
Proof.
  intros H. simpl. rewrite !(is_square_upper s H). now apply is_square_regex.
Qed.

Lemma getitem_square (b : Board) (s : string) :
  is_square s = true -> getitem b (CStr s) = inr (dict_get b (Some s)).
Proof.
  intros H. change (CStr s) with (coord_of_key (Some s)).
  rewrite getitem_key, (is_square_passes s H). simpl.
  now rewrite (is_square_upper s H).
Qed.

Lemma keys_elem (b : Board) (k : key) : In k (keys b) <-> is_Some (squares b !! k).
Proof.
  unfold keys. rewrite in_map_iff. split.
  - intros ([k' v] & <- & Hin). apply list_elem_of_In, elem_of_map_to_list in Hin.
    simpl. eauto.
  - intros [v Hv]. exists (k, v). split; [reflexivity|].
    now apply list_elem_of_In, elem_of_map_to_list.
Qed.

Lemma wf_squares_lookup (b : Board) (k : key) (v : option Piece) :
  wf_squares b -> squares b !! k = Some v ->
  exists s pc, k = Some s /\ v = Some pc /\ is_square s = true.
Proof.
  intros Hwf Hk. specialize (Hwf k v Hk). simpl in Hwf.
  destruct k as [s|], v as [pc|]; try discriminate. eauto.
Qed.

Lemma wf_squares_keys_pass (b : Board) :
  wf_squares b -> Forall (fun k => key_passes k = true) (keys b).
Proof.
  intros Hwf. apply List.Forall_forall. intros k Hk.
  apply keys_elem in Hk as [v Hv].
  destruct (wf_squares_lookup b k v Hwf Hv) as (s & pc & -> & _ & Hs).
  now apply is_square_passes.
Qed.

Lemma wf_squares_no_None_key (b : Board) : wf_squares b -> dict_get b None = None.
Proof.
  intros Hwf. unfold dict_get. destruct (squares b !! None) as [v|] eqn:E; [|reflexivity].
  destruct (wf_squares_lookup b None v Hwf E) as (s & pc & Hk & _). discriminate.
Qed.

Lemma valid_color_cases (c : string) :
  valid_color c = true <-> c = "white" \/ c = "black".
Proof.
  unfold valid_color. rewrite orb_true_iff, !String.eqb_eq. tauto.
Qed.

Lemma color_valid (pc : Piece) : valid_color (color pc) = true.
Proof. destruct pc as [k []]; reflexivity. Qed.

Lemma get_enemy_valid (c : string) : valid_color (get_enemy c) = true.
Proof. unfold get_enemy. now destruct (String.eqb c "white"). Qed.

(** ** The loops of the engine *)

Lemma rmap_inr {A B : Type} (f : A -> Res B) (g : A -> B) (l : list A) :
  (forall a, In a l -> f a = inr (g a)) -> rmap f l = inr (map g l).
Proof.
  induction l as [|a l IH]; intros H; simpl; [reflexivity|].
  rewrite (H a (or_introl eq_refl)). simpl.
  rewrite IH; [reflexivity|]. intros a' Ha'. apply H. now right.
Qed.

Lemma rmap_total {A B : Type} (f : A -> Res B) (l : list A) :
  (forall a, In a l -> exists y, f a = inr y) -> exists l', rmap f l = inr l'.
Proof.
  induction l as [|a l IH]; intros H; simpl; [eauto|].
  destruct (H a (or_introl eq_refl)) as [y ->]. simpl.
  destruct IH as [l' ->]; [intros a' Ha'; apply H; now right|]. simpl. eauto.
Qed.

Lemma rmap_In {A B : Type} (f : A -> Res B) (l : list A) (l' : list B) :
  rmap f l = inr l' ->
  forall y, In y l' <-> exists a, In a l /\ f a = inr y.
Proof.
  revert l'. induction l as [|a l IH]; intros l' H y; simpl in H.
  - injection H as <-. simpl. split; [tauto|]. intros (a & [] & _).
  - destruct (f a) as [e|b] eqn:Ea; simpl in H; [discriminate|].
    destruct (rmap f l) as [e|bs] eqn:El; simpl in H; [discriminate|].
    injection H as <-. simpl. rewrite (IH bs eq_refl y). split.
    + intros [<-|(a' & Ha' & Hf)]; [exists a|exists a']; tauto.
    + intros (a' & [<-|Ha'] & Hf).
      * left. congruence.
      * right. eauto.
Qed.

Lemma rmap_Forall2 {A B : Type} (f : A -> Res B) (l : list A) (l' : list B) :
  rmap f l = inr l' -> Forall2 (fun a y => f a = inr y) l l'.
Proof.
  revert l'. induction l as [|a l IH]; intros l' H; simpl in H.
  - injection H as <-. constructor.
  - destruct (f a) as [e|b] eqn:Ea; simpl in H; [discriminate|].
    destruct (rmap f l) as [e|bs] eqn:El; simpl in H; [discriminate|].
    injection H as <-. constructor; [assumption|now apply IH].
Qed.

Lemma existsb_map_comp {A B : Type} (f : B -> bool) (g : A -> B) (l : list A) :
  existsb f (map g l) = existsb (fun a => f (g a)) l.
Proof. induction l as [|a l IH]; simpl; [reflexivity|]. now rewrite IH. Qed.

Lemma existsb_pointwise {A : Type} (f g : A -> bool) (l : list A) :
  (forall a, f a = g a) -> existsb f l = existsb g l.
Proof. intros H. induction l as [|a l IH]; simpl; [reflexivity|]. now rewrite H, IH. Qed.

Section Loops.

Variable pm : Board -> Piece -> key -> list string.

Lemma all_possible_moves_loop_total (b : Board) (c : string) (ks : list key) :
  Forall (fun k => key_passes k = true) ks ->
  forall acc, exists l, all_possible_moves_loop pm b c acc ks = inr l.
Proof.
  induction 1 as [|k ks Hk _ IH]; intros acc; simpl; [eauto|].
  rewrite getitem_key, Hk. simpl.
  destruct (dict_get b (norm_key k)) as [pc|]; [|apply IH].
  destruct (String.eqb (color pc) c); [|apply IH].
  destruct (pm b pc k); apply IH.
Qed.

Lemma all_possible_moves_loop_passes (b : Board) (c : string) (ks : list key) :
  forall acc l, all_possible_moves_loop pm b c acc ks = inr l ->
                Forall (fun k => key_passes k = true) ks.
Proof.
  induction ks as [|k ks IH]; intros acc l H; [constructor|].
  simpl in H. rewrite getitem_key in H.
  destruct (key_passes k) eqn:Hk; [|discriminate]. simpl in H.
  constructor; [assumption|].
  destruct (dict_get b (norm_key k)) as [pc|]; [|now apply IH in H].
  destruct (String.eqb (color pc) c); [|now apply IH in H].
  destruct (pm b pc k) eqn:E; now apply IH in H.
Qed.

Lemma all_possible_moves_loop_squares (b : Board) (c : string) (ks : list key) :
  in_bounds pm ->
  forall acc l, all_possible_moves_loop pm b c acc ks = inr l ->
                Forall (fun d => is_square d = true) acc ->
                Forall (fun d => is_square d = true) l.
Proof.
  intros Hpm. induction ks as [|k ks IH]; intros acc l H Hacc; simpl in H.
  - now injection H as <-.
  - destruct (getitem b (coord_of_key k)) as [e|p]; [discriminate|]. simpl in H.
    destruct p as [pc|]; [|now apply IH in H].
    destruct (String.eqb (color pc) c); [|now apply IH in H].
    destruct (pm b pc k) as [|d ds] eqn:E; [now apply IH in H|].
    apply IH in H; [assumption|]. apply Forall_app. split; [assumption|].
    apply List.Forall_forall. intros d' Hd'. apply (Hpm b pc k). now rewrite E.
Qed.

Lemma get_king_position_loop_total (b : Board) (c : string) (ks : list key) :
  Forall (fun k => key_passes k = true) ks ->
  exists pos, get_king_position_loop b c ks = inr pos /\
              (pos = None \/ In pos ks).
Proof.
  induction 1 as [|k ks Hk _ IH]; simpl; [eauto|].
  rewrite getitem_key, Hk. simpl.
  destruct IH as (pos & IH & Hpos).
  assert (Hrest : exists pos, get_king_position_loop b c ks = inr pos /\
                              (pos = None \/ k = pos \/ In pos ks))
    by (exists pos; split; [assumption|tauto]).
  destruct (dict_get b (norm_key k)) as [pc|]; simpl; [|assumption].
  destruct (bool_decide (kind pc = King)); [|assumption]. simpl.
  destruct (String.eqb (color pc) c); [|assumption].
  exists k. split; [reflexivity|]. now right; left.
Qed.

Lemma get_king_position_loop_no_king (b : Board) (c : string) (ks : list key) :
  wf_squares b -> no_king b c ->
  Forall (fun k => is_Some (squares b !! k)) ks ->
  get_king_position_loop b c ks = inr None.
Proof.
  intros Hwf Hno. induction 1 as [|k ks [v Hv] _ IH]; simpl; [reflexivity|].
  destruct (wf_squares_lookup b k v Hwf Hv) as (s & pc & -> & -> & Hs).
  simpl coord_of_key. rewrite (getitem_square b s Hs).
  unfold dict_get. rewrite Hv. simpl.
  specialize (Hno (Some s) (Some pc) Hv). simpl in Hno.
  destruct (bool_decide (kind pc = King)); [|assumption].
  simpl in *. now rewrite Hno.
Qed.

Lemma is_in_check_total (b : Board) (c : string) :
  in_bounds pm -> valid_color c = true ->
  Forall (fun k => key_passes k = true) (keys b) ->
  exists r, is_in_check pm b c = inr r.
Proof.
  intros Hpm Hc Hks. unfold is_in_check, get_king, get_king_position. rewrite Hc. simpl.
  destruct (get_king_position_loop_total b c (keys b) Hks) as (pos & -> & Hpos).
  simpl. rewrite getitem_key.
  assert (Hp : key_passes pos = true).
  { destruct Hpos as [->|Hin]; [reflexivity|].
    rewrite List.Forall_forall in Hks. now apply Hks. }
  rewrite Hp. simpl. unfold all_possible_moves. rewrite get_enemy_valid. simpl.
  destruct (all_possible_moves_loop_total b (get_enemy c) (keys b) Hks []) as [l El].
  rewrite El. simpl.
  assert (Hl : Forall (fun d => is_square d = true) l)
    by (eapply all_possible_moves_loop_squares; eauto).
  rewrite (rmap_inr _ (fun m => dict_get b (Some m))).
  - simpl. eauto.
  - intros m Hm. apply getitem_square. rewrite List.Forall_forall in Hl. now apply Hl.
Qed.

Lemma is_in_check_passes (b : Board) (c : string) (r : bool) :
  is_in_check pm b c = inr r ->
  Forall (fun k => key_passes k = true) (keys b).
Proof.
  unfold is_in_check. destruct (negb (valid_color c)); [discriminate|].
  destruct (get_king b c) as [e|king]; [discriminate|]. simpl.
  unfold all_possible_moves. rewrite get_enemy_valid. simpl.
  destruct (all_possible_moves_loop pm b (get_enemy c) [] (keys b)) as [e|l] eqn:E;
    [discriminate|].
  intros _. eapply all_possible_moves_loop_passes; eauto.
Qed.

End Loops.

(** ** The catalogue keeps its contract *)

Lemma letter_notation_square (t : Z * Z) (s : string) :
  letter_notation t = inr (Some s) -> is_square s = true.
Proof.
  destruct t as [r c]. unfold letter_notation, is_in_bounds. simpl.
  destruct (c <? 0)%Z eqn:E1; [discriminate|].
  destruct (c >? 7)%Z eqn:E2; [discriminate|].
  destruct (r <? 0)%Z eqn:E3; [discriminate|].
  destruct (r >? 7)%Z eqn:E4; [discriminate|]. simpl.
  assert (Hc : (c = 0 \/ c = 1 \/ c = 2 \/ c = 3 \/ c = 4 \/ c = 5 \/ c = 6 \/ c = 7)%Z) by lia.
  assert (Hr : (r = 0 \/ r = 1 \/ r = 2 \/ r = 3 \/ r = 4 \/ r = 5 \/ r = 6 \/ r = 7)%Z) by lia.
  clear E1 E2 E3 E4.
  repeat destruct Hc as [->|Hc]; try subst c;
    repeat destruct Hr as [->|Hr]; try subst r;
    simpl; intros [= <-]; reflexivity.
Qed.

Lemma letter_notation_total (t : Z * Z) : exists k, letter_notation t = inr k.
Proof.
  destruct t as [r c]. unfold letter_notation, is_in_bounds. simpl.
  destruct (c <? 0)%Z eqn:E1; [simpl; eauto|].
  destruct (c >? 7)%Z eqn:E2; [simpl; eauto|].
  destruct (r <? 0)%Z eqn:E3; [simpl; eauto|].
  destruct (r >? 7)%Z eqn:E4; [simpl; eauto|]. simpl.
  assert (Hc : (c = 0 \/ c = 1 \/ c = 2 \/ c = 3 \/ c = 4 \/ c = 5 \/ c = 6 \/ c = 7)%Z) by lia.
  assert (Hr : (r = 0 \/ r = 1 \/ r = 2 \/ r = 3 \/ r = 4 \/ r = 5 \/ r = 6 \/ r = 7)%Z) by lia.
  clear E1 E2 E3 E4.
  repeat destruct Hc as [->|Hc]; try subst c;
    repeat destruct Hr as [->|Hr]; try subst r; simpl; eauto.
Qed.

Lemma target_square (b : Board) (t : Z * Z) (s : string) (o : option Piece) :
  catalogue.target b t = Some (s, o) -> is_square s = true.
Proof.
  unfold catalogue.target. destruct (letter_notation t) as [e|[s'|]] eqn:E; try discriminate.
  intros [= <- _]. now apply letter_notation_square in E.
Qed.

Lemma step_square (b : Board) (pc : Piece) (from d : Z * Z) (s : string) :
  In s (catalogue.step b pc from d) -> is_square s = true.
Proof.
  unfold catalogue.step.
  destruct (catalogue.target b (catalogue.shift from d)) as [[s' [q|]]|] eqn:E;
    [destruct (catalogue.enemy_of pc q)| |]; simpl; intros H; try tauto;
    destruct H as [<-|[]]; now apply target_square in E.
Qed.

Lemma ray_square (b : Board) (pc : Piece) (fuel : nat) (d : Z * Z) (s : string) :
  forall from, In s (catalogue.ray b pc fuel from d) -> is_square s = true.
Proof.
  induction fuel as [|fuel IH]; intros from; simpl; [tauto|].
  destruct (catalogue.target b (catalogue.shift from d)) as [[s' [q|]]|] eqn:E;
    [destruct (catalogue.enemy_of pc q)| |]; simpl; intros H; try tauto.
  - destruct H as [<-|[]]. now apply target_square in E.
  - destruct H as [<-|H]; [now apply target_square in E|now apply IH in H].
Qed.

Lemma pawn_moves_square (b : Board) (pc : Piece) (from : Z * Z) (s : string) :
  In s (catalogue.pawn_moves b pc from) -> is_square s = true.
Proof.
  unfold catalogue.pawn_moves. intros H.
  repeat (apply in_app_or in H; destruct H as [H|H]);
    repeat match type of H with
      | context [catalogue.target b ?t] =>
          let E := fresh "E" in
          destruct (catalogue.target b t) as [[? [?|]]|] eqn:E
      | context [if ?c then _ else _] => destruct c
      | In _ (_ :: _) => destruct H as [<-|H]
      | In _ [] => destruct H
      end;
    try (eapply target_square; eassumption).
Qed.

Lemma catalogue_in_bounds : in_bounds catalogue.possible_moves.
Proof.
  intros b pc k d. unfold catalogue.possible_moves.
  destruct (number_notation k) as [e|[from|]]; simpl; try tauto.
  destruct (is_in_bounds from); simpl; [|tauto].
  unfold catalogue.moves_from.
  destruct (kind pc); try apply pawn_moves_square;
    rewrite in_flat_map; intros (x & _ & Hx);
    solve [eapply step_square; eauto | eapply ray_square; eauto].
Qed.

(** Checks that decide the predicates on a position that is written out. *)
Lemma wf_squares_check (b : Board) :
  forallb (fun kv => wf_entry (fst kv) (snd kv)) (map_to_list (squares b)) = true ->
  wf_squares b.
Proof.
  intros H k v Hkv. rewrite forallb_forall in H.
  apply (H (k, v)). now apply list_elem_of_In, elem_of_map_to_list.
Qed.

Lemma no_king_check (b : Board) (c : string) :
  forallb (fun kv => negb (king_of c (snd kv))) (map_to_list (squares b)) = true ->
  no_king b c.
Proof.
  intros H k v Hkv. rewrite forallb_forall in H.
  apply negb_true_iff, (H (k, v)). now apply list_elem_of_In, elem_of_map_to_list.
Qed.

(** ** A board without a king *)

(** C9, counterexample: on the board that holds the black king alone there
    is no white king; asking for white's king raises nothing and gives
    [None], and [is_in_check] for white returns [True]. *)
Lemma missing_king_raises_nothing :
  no_king lone_black_king "white" /\
  get_king_position lone_black_king "white" = inr None /\
  get_king lone_black_king "white" = inr None /\
  is_in_check catalogue.possible_moves lone_black_king "white" = inr true /\
  ~ (exists e, get_king_position lone_black_king "white" = inl e) /\
  ~ (exists e, is_in_check catalogue.possible_moves lone_black_king "white" = inl e).
Proof.
  split; [apply no_king_check; vm_compute; reflexivity|].
  split; [vm_compute; reflexivity|]. split; [vm_compute; reflexivity|].
  split; [vm_compute; reflexivity|].
  split; intros [e He]; vm_compute in He; discriminate.
Qed.

(** C9, as amended: on a board as [load] and [move] leave it that holds no
    king of the queried colour, [get_king_position] and [get_king] return
    [None] without raising, and [is_in_check] returns a boolean: [True]
    exactly when some possible move of the other side ends on an empty
    square. *)
Theorem missing_king_is_silent
  (pm : Board -> Piece -> key -> list string) (b : Board) (color : string) :
  in_bounds pm -> wf_squares b -> valid_color color = true -> no_king b color ->
  get_king_position b color = inr None /\
  get_king b color = inr None /\
  exists moves,
    all_possible_moves pm b (get_enemy color) = inr moves /\
    is_in_check pm b color
    = inr (existsb (empty_square b) moves).
Proof.
  intros Hpm Hwf Hc Hno.
  assert (Hpos : get_king_position b color = inr None).
  { apply get_king_position_loop_no_king; [assumption..|].
    apply List.Forall_forall. intros k Hk. now apply keys_elem. }
  assert (Hking : get_king b color = inr None).
  { unfold get_king. rewrite Hc, Hpos. simpl. now rewrite wf_squares_no_None_key. }
  split; [assumption|]. split; [assumption|].
  pose proof (wf_squares_keys_pass b Hwf) as Hks.
  unfold is_in_check. rewrite Hc, Hking. simpl.
  unfold all_possible_moves. rewrite get_enemy_valid. simpl.
  destruct (all_possible_moves_loop_total pm b (get_enemy color) (keys b) Hks [])
    as [l El].
  exists l. split; [assumption|]. rewrite El. simpl.
  assert (Hl : Forall (fun d => is_square d = true) l)
    by (eapply all_possible_moves_loop_squares; eauto).
  rewrite (rmap_inr _ (fun m => dict_get b (Some m))).
  - simpl. unfold py_in. rewrite existsb_map_comp. f_equal.
    apply existsb_pointwise. intros m. unfold empty_square.
    now destruct (dict_get b (Some m)).
  - intros m Hm. apply getitem_square. rewrite List.Forall_forall in Hl. now apply Hl.
Qed.

Lemma missing_king_is_silent_witness :
  get_king_position lone_black_king "white" = inr None /\
  get_king lone_black_king "white" = inr None /\
  exists moves,
    all_possible_moves catalogue.possible_moves lone_black_king (get_enemy "white")
    = inr moves /\
    is_in_check catalogue.possible_moves lone_black_king "white"
    = inr (existsb (empty_square lone_black_king) moves).
Proof.
  apply (missing_king_is_silent catalogue.possible_moves lone_black_king "white").
  - exact catalogue_in_bounds.
  - apply wf_squares_check. vm_compute. reflexivity.
  - reflexivity.
  - apply no_king_check. vm_compute. reflexivity.
Defined.

(** ** Moving on a copy *)

Lemma do_move_run (p1 p2 : key) (b : Board) :
  _do_move p1 p2 b =
  match getitem b (coord_of_key p1) with
  | inl e => (inl e, b)
  | inr piece =>
      if bool_decide (is_Some (squares b !! p1))
      then (inr tt, set_squares (insert p2 piece) (set_squares (delete p1) b))
      else (inl KeyError, b)
  end.
Proof.
  unfold _do_move, bind, call, gets, modify, raise.
  destruct (getitem b (coord_of_key p1)); [reflexivity|].
  now destruct (bool_decide (is_Some (squares b !! p1))).
Qed.

Lemma do_move_failure (p1 p2 : key) (b b' : Board) (e : Exc) :
  _do_move p1 p2 b = (inl e, b') -> b' = b.
Proof.
  rewrite do_move_run. destruct (getitem b (coord_of_key p1)); [congruence|].
  destruct (bool_decide (is_Some (squares b !! p1))); congruence.
Qed.

Lemma do_move_square (b : Board) (s d : string) (pc : Piece) :
  wf_squares b -> squares b !! Some s = Some (Some pc) ->
  _do_move (Some s) (Some d) b
  = (inr tt, set_squares (insert (Some d) (Some pc)) (set_squares (delete (Some s)) b)).
Proof.
  intros Hwf Hs. rewrite do_move_run.
  destruct (wf_squares_lookup b _ _ Hwf Hs) as (s' & pc' & [= <-] & _ & Hsq).
  simpl coord_of_key. rewrite (getitem_square b s Hsq).
  unfold dict_get. rewrite Hs.
  now rewrite bool_decide_eq_true_2 by eauto.
Qed.

Lemma wf_squares_moved (b : Board) (s d : string) (pc : Piece) :
  wf_squares b -> is_square d = true ->
  wf_squares (set_squares (insert (Some d) (Some pc)) (set_squares (delete (Some s)) b)).
Proof.
  intros Hwf Hd. unfold wf_squares. simpl.
  apply map_Forall_insert_2; [assumption|].
  now apply map_Forall_delete.
Qed.

(** ** The legal moves of a piece *)

(** C3, counterexample: the white rook on E2 is pinned by the black rook on
    E8.  The list returned for it holds [None] at the places of the moves
    that expose the king, so it holds something that is no destination. *)
Lemma legal_piece_moves_hold_None :
  getitem pinned_rook (CStr "E2") = inr (Some (mkPiece Rook white)) /\
  player_turn pinned_rook = Some "white" /\
  catalogue.possible_moves pinned_rook (mkPiece Rook white) (Some "E2")
  = ["D2"; "C2"; "B2"; "A2"; "F2"; "G2"; "H2";
     "E3"; "E4"; "E5"; "E6"; "E7"; "E8"] /\
  all_legal_piece_moves catalogue.possible_moves pinned_rook (Some "E2")
  = inr [None; None; None; None; None; None; None;
         Some "E3"; Some "E4"; Some "E5"; Some "E6"; Some "E7"; Some "E8"] /\
  ~ (forall l,
       all_legal_piece_moves catalogue.possible_moves pinned_rook (Some "E2") = inr l ->
       forall entry, In entry l ->
         exists d, entry = Some d /\
                   is_in_check_after_move catalogue.possible_moves pinned_rook
                     (Some "E2") d = inr false).
Proof.
  assert (E : all_legal_piece_moves catalogue.possible_moves pinned_rook (Some "E2")
              = inr [None; None; None; None; None; None; None;
                     Some "E3"; Some "E4"; Some "E5"; Some "E6"; Some "E7"; Some "E8"])
    by (vm_compute; reflexivity).
  split; [vm_compute; reflexivity|]. split; [vm_compute; reflexivity|].
  split; [vm_compute; reflexivity|]. split; [exact E|].
  intros H. destruct (H _ E None) as (d & Hd & _); [now left|discriminate].
Qed.

Lemma is_in_check_after_move_total
  (pm : Board -> Piece -> key -> list string) (b : Board) (s d : string) (pc : Piece) :
  in_bounds pm -> wf_squares b -> squares b !! Some s = Some (Some pc) ->
  is_square d = true ->
  exists r, is_in_check_after_move pm b (Some s) d = inr r.
Proof.
  intros Hpm Hwf Hs Hd. unfold is_in_check_after_move.
  rewrite (do_move_square b s d pc Hwf Hs).
  destruct (wf_squares_lookup b _ _ Hwf Hs) as (s' & pc' & [= <-] & _ & Hsq).
  simpl coord_of_key. rewrite (getitem_square b s Hsq).
  unfold dict_get at 1. rewrite Hs. simpl.
  apply is_in_check_total; [assumption|apply color_valid|].
  apply wf_squares_keys_pass. now apply wf_squares_moved.
Qed.

(** C3, as amended: for an occupied origin on a board as [load] and [move]
    leave it, [all_legal_piece_moves] returns a list, and the destinations
    in that list are exactly the possible moves of the piece after which
    [is_in_check_after_move] is [False].  The list has one entry for each
    possible move, in order: the move itself, or [None] where the move
    leaves the king attacked. *)
Theorem legal_piece_moves_are_the_safe_ones
  (pm : Board -> Piece -> key -> list string) (b : Board) (origin : string)
  (pc : Piece) :
  in_bounds pm -> wf_squares b -> squares b !! Some origin = Some (Some pc) ->
  exists l,
    all_legal_piece_moves pm b (Some origin) = inr l /\
    (forall d, In (Some d) l <->
               In d (pm b pc (Some origin)) /\
               is_in_check_after_move pm b (Some origin) d = inr false) /\
    Forall2 (fun d entry =>
               exists c, is_in_check_after_move pm b (Some origin) d = inr c /\
                         entry = if c then None else Some d)
            (pm b pc (Some origin)) l.
Proof.
  intros Hpm Hwf Hs. unfold all_legal_piece_moves.
  destruct (wf_squares_lookup b _ _ Hwf Hs) as (s' & pc' & [= <-] & _ & Hsq).
  simpl coord_of_key. rewrite (getitem_square b origin Hsq).
  unfold dict_get at 1. rewrite Hs. simpl.
  destruct (rmap_total (add_move_piece pm b (Some origin)) (pm b pc (Some origin)))
    as [l El].
  { intros d Hd. unfold add_move_piece.
    destruct (is_in_check_after_move_total pm b origin d pc Hpm Hwf Hs) as [r ->].
    - now apply (Hpm b pc (Some origin)).
    - simpl. destruct r; eauto. }
  exists l. split; [assumption|]. split.
  - intros d. rewrite (rmap_In _ _ _ El). split.
    + intros (m & Hm & Hadd). unfold add_move_piece in Hadd.
      destruct (is_in_check_after_move pm b (Some origin) m) as [e|[|]] eqn:E;
        simpl in Hadd; try discriminate.
      injection Hadd as <-. tauto.
    + intros [Hd Hsafe]. exists d. split; [assumption|].
      unfold add_move_piece. now rewrite Hsafe.
  - eapply Forall2_impl; [exact (rmap_Forall2 _ _ _ El)|].
    intros d entry Hadd. unfold add_move_piece in Hadd.
    destruct (is_in_check_after_move pm b (Some origin) d) as [e|c];
      [discriminate|].
    exists c. split; [reflexivity|]. destruct c; simpl in Hadd; congruence.
Qed.

Lemma legal_piece_moves_are_the_safe_ones_witness :
  exists l,
    all_legal_piece_moves catalogue.possible_moves pinned_rook (Some "E2") = inr l /\
    (forall d, In (Some d) l <->
               In d (catalogue.possible_moves pinned_rook (mkPiece Rook white)
                       (Some "E2")) /\
               is_in_check_after_move catalogue.possible_moves pinned_rook
                 (Some "E2") d = inr false) /\
    Forall2 (fun d entry =>
               exists c, is_in_check_after_move catalogue.possible_moves pinned_rook
                           (Some "E2") d = inr c /\
                         entry = if c then None else Some d)
            (catalogue.possible_moves pinned_rook (mkPiece Rook white) (Some "E2")) l.
Proof.
  apply (legal_piece_moves_are_the_safe_ones catalogue.possible_moves pinned_rook "E2").
  - exact catalogue_in_bounds.
  - apply wf_squares_check. vm_compute. reflexivity.
  - vm_compute. reflexivity.
Defined.

(** ** A move that fails *)

Lemma keys_same_squares (b1 b2 : Board) : squares b1 = squares b2 -> keys b1 = keys b2.
Proof. unfold keys. now intros ->. Qed.

Lemma legal_move_is_safe
  (pm : Board -> Piece -> key -> list string) (b : Board) (p1 : key) (p2 : string)
  (l : list (option string)) :
  all_legal_piece_moves pm b p1 = inr l -> In (Some p2) l ->
  is_in_check_after_move pm b p1 p2 = inr false /\
  exists pc, getitem b (coord_of_key p1) = inr (Some pc) /\ In p2 (pm b pc p1).
Proof.
  unfold all_legal_piece_moves. intros H Hin.
  destruct (getitem b (coord_of_key p1)) as [e|[pc|]]; try discriminate.
  simpl in H. apply (rmap_In _ _ _ H) in Hin as (m & Hm & Hadd).
  unfold add_move_piece in Hadd.
  destruct (is_in_check_after_move pm b p1 m) as [e|[|]] eqn:E;
    simpl in Hadd; try discriminate.
  injection Hadd as ->. eauto.
Qed.

(** C4: a call of [move] that raises leaves everything as it was.  For any
    catalogue whose destinations are squares, any state (the board with its
    dictionary, turn, clocks and flags, and the history) and any two
    strings: if [move] ends in an exception, whichever it is, the state
    after the call is the state before it. *)
Theorem failed_move_changes_nothing
  (pm : Board -> Piece -> key -> list string) (g g' : Game) (p1 p2 : string)
  (e : Exc) :
  in_bounds pm ->
  move pm p1 p2 g = (inl e, g') ->
  g' = g.
Proof.
  intros Hpm. unfold move, bind, call, gets, raise, ret.
  set (P1 := py.upper p1). set (P2 := py.upper p2).
  destruct (getitem (self g) (CStr P1)) as [e1|piece] eqn:E1; [congruence|].
  destruct (getitem (self g) (CStr P2)) as [e2|dest] eqn:E2; [congruence|].
  destruct piece as [pc|]; [|congruence].
  destruct (negb (bool_decide (player_turn (self g) = Some (color pc))));
    [congruence|].
  destruct (all_legal_piece_moves pm (self g) (Some P1)) as [e3|l] eqn:E3;
    [congruence|].
  destruct (bool_decide_reflect (Some P2 ∈ l)) as [Hin|_]; simpl; [|congruence].
  apply list_elem_of_In in Hin.
  destruct (legal_move_is_safe pm (self g) (Some P1) P2 l E3 Hin) as [Hsafe _].
  unfold is_in_check_after_move in Hsafe. unfold on_self at 1.
  destruct (_do_move (Some P1) (Some P2) (self g)) as [[e4|[]] tmp] eqn:E4;
    [discriminate|].
  destruct (getitem (self g) (coord_of_key (Some P1))) as [e5|p]; [discriminate|].
  simpl in Hsafe. destruct (attr color p) as [e6|c]; [discriminate|].
  simpl in Hsafe. apply is_in_check_passes in Hsafe.
  destruct (finish_move_clock pc dest P2 (mkGame tmp (history g)))
    as (g1 & -> & Hsq & _).
  destruct (is_in_check_total pm (self g1) (get_enemy (color pc)) Hpm
              (get_enemy_valid _)) as [r ->].
  { rewrite (keys_same_squares (self g1) tmp Hsq). exact Hsafe. }
  unfold on_self, modify. destruct r; discriminate.
Qed.

Lemma failed_move_changes_nothing_witness :
  snd (move catalogue.possible_moves "E7" "E5" (mkGame start_board []))
  = mkGame start_board [].
Proof.
  apply (failed_move_changes_nothing catalogue.possible_moves
           (mkGame start_board []) _ "E7" "E5" (NotYourTurn "Not black's turn!")).
  - exact catalogue_in_bounds.
  - vm_compute. reflexivity.
Defined.

Example failed_moves_on_the_start :
  fst (move catalogue.possible_moves "E7" "E5" (mkGame start_board []))
  = inl (NotYourTurn "Not black's turn!") /\
  fst (move catalogue.possible_moves "E2" "E5" (mkGame start_board []))
  = inl InvalidMove /\
  fst (move catalogue.possible_moves "E2" "Z9" (mkGame start_board []))
  = inl KeyError.
Proof. vm_compute. repeat split. Qed.

(** ** Strings *)

#[local] Arguments String.append !s1 s2 : simpl nomatch.

Lemma app_empty_r (s : string) : s ++ EmptyString = s.
Proof. induction s as [|c s IH]; cbn; [reflexivity|]. now rewrite IH. Qed.

Lemma app_assoc_s (a b c : string) : (a ++ b) ++ c = a ++ (b ++ c).
Proof. induction a as [|x a IH]; cbn; [reflexivity|]. now rewrite IH. Qed.

Lemma all_chars_app (p : ascii -> bool) (a b : string) :
  all_chars p (a ++ b) = all_chars p a && all_chars p b.
Proof.
  induction a as [|x a IH]; simpl; [reflexivity|].
  now rewrite IH, andb_assoc.
Qed.

Lemma all_chars_weaken (p q : ascii -> bool) (s : string) :
  (forall c, p c = true -> q c = true) ->
  all_chars p s = true -> all_chars q s = true.
Proof.
  intros Hpq. induction s as [|c s IH]; simpl; [reflexivity|].
  rewrite !andb_true_iff. intros [Hc Hs]. split; [now apply Hpq|now apply IH].
Qed.

Lemma all_chars_run (p : ascii -> bool) (c : ascii) (n : nat) :
  p c = true -> all_chars p (run c n) = true.
Proof. intros H. induction n as [|n IH]; simpl; [reflexivity|]. now rewrite H. Qed.

Lemma concat_cons (x : string) (xs : list string) :
  String.concat EmptyString (x :: xs) = x ++ String.concat EmptyString xs.
Proof.
  destruct xs as [|y ys]; [|reflexivity].
  change (x = x ++ EmptyString). now rewrite app_empty_r.
Qed.

Lemma concat_app (xs ys : list string) :
  String.concat EmptyString (xs ++ ys)%list = String.concat EmptyString xs ++ String.concat EmptyString ys.
Proof.
  induction xs as [|x xs IH]; [reflexivity|].
  change ((x :: xs) ++ ys)%list with (x :: (xs ++ ys))%list.
  now rewrite !concat_cons, IH, app_assoc_s.
Qed.

Lemma split_lacks (sep : ascii) (s : string) :
  lacks sep s = true -> py.split sep s = [s].
Proof.
  unfold lacks. induction s as [|c s IH]; simpl; [reflexivity|].
  rewrite andb_true_iff, negb_true_iff. intros [-> Hs]. now rewrite IH.
Qed.

Lemma split_app (sep : ascii) (a b : string) :
  lacks sep a = true -> py.split sep (a ++ String sep b) = a :: py.split sep b.
Proof.
  unfold lacks. induction a as [|c a IH]; simpl.
  - intros _. now rewrite Ascii.eqb_refl.
  - rewrite andb_true_iff, negb_true_iff. intros [-> Ha]. now rewrite IH.
Qed.

Lemma join_cons2 (sep x y : string) (l : list string) :
  py.join sep (x :: y :: l) = x ++ sep ++ py.join sep (y :: l).
Proof. reflexivity. Qed.

Lemma split_join (sep : ascii) (rows : list string) :
  rows <> [] -> Forall (fun r => lacks sep r = true) rows ->
  py.split sep (py.join (String sep EmptyString) rows) = rows.
Proof.
  intros Hne H. induction H as [|x l Hx Hl IH]; [congruence|].
  destruct l as [|y l]; [now apply split_lacks|].
  rewrite join_cons2.
  change (py.split sep (x ++ String sep (py.join (String sep EmptyString) (y :: l)))
          = x :: y :: l).
  rewrite split_app by assumption. now rewrite IH.
Qed.

Lemma sub_digits_app (a b : string) :
  py.sub_digits (a ++ b) = py.sub_digits a ++ py.sub_digits b.
Proof.
  induction a as [|c a IH]; simpl; [reflexivity|].
  destruct (py.is_digit c); simpl; now rewrite IH, ?app_assoc_s.
Qed.

Lemma sub_digits_no_digit (s : string) :
  no_digit s = true -> py.sub_digits s = s.
Proof.
  unfold no_digit. induction s as [|c s IH]; simpl; [reflexivity|].
  rewrite andb_true_iff, negb_true_iff. intros [-> Hs]. now rewrite IH.
Qed.

Lemma sub_digits_join (rows : list string) :
  py.sub_digits (py.join "/" rows) = py.join "/" (map py.sub_digits rows).
Proof.
  induction rows as [|x [|y l] IH]; [reflexivity..|].
  change (map py.sub_digits (x :: y :: l))
    with (py.sub_digits x :: py.sub_digits y :: map py.sub_digits l).
  rewrite !join_cons2, !sub_digits_app, IH. reflexivity.
Qed.

(** *** Runs of equal characters *)

Lemma groupby_head (c : ascii) (s : string) :
  exists g gs, py.groupby (String c s) = (c, String c g) :: gs.
Proof.
  simpl. destruct (py.groupby s) as [|[k g] gs]; [eauto|].
  destruct (Ascii.eqb_spec c k) as [->|_]; eauto.
Qed.

Lemma groupby_cons (c : ascii) (s : string) :
  py.groupby (String c s)
  = match py.groupby s with
    | (k, g) :: gs =>
        if Ascii.eqb c k then (k, String c g) :: gs
        else (c, String c EmptyString) :: (k, g) :: gs
    | [] => [(c, String c EmptyString)]
    end.
Proof. reflexivity. Qed.

Lemma groupby_separator (r rest : string) :
  lacks "/" r = true ->
  match rest with String y _ => y <> "/"%char | EmptyString => True end ->
  py.groupby (r ++ String "/" rest)
  = (py.groupby r ++ ("/"%char, "/") :: py.groupby rest)%list.
Proof.
  unfold lacks. intros Hr Hrest. induction r as [|c r IH].
  - change (py.groupby (String "/" rest) = ("/"%char, "/") :: py.groupby rest).
    rewrite groupby_cons. destruct rest as [|y rest']; [reflexivity|].
    destruct (groupby_head y rest') as (g & gs & ->).
    destruct (Ascii.eqb_spec "/" y) as [<-|_]; [congruence|reflexivity].
  - change (negb (Ascii.eqb c "/") &&
            all_chars (fun x => negb (Ascii.eqb x "/")) r = true) in Hr.
    apply andb_true_iff in Hr as [Hc Hr]. apply negb_true_iff in Hc.
    change (String c r ++ String "/" rest) with (String c (r ++ String "/" rest)).
    rewrite groupby_cons, (IH Hr), (groupby_cons c r).
    destruct (py.groupby r) as [|[k g] gs].
    + change ([] ++ ("/"%char, "/") :: py.groupby rest)%list
        with (("/"%char, "/") :: py.groupby rest).
      cbv beta iota. now rewrite Hc.
    + change (((k, g) :: gs) ++ ("/"%char, "/") :: py.groupby rest)%list
        with ((k, g) :: (gs ++ ("/"%char, "/") :: py.groupby rest))%list.
      cbv beta iota. now destruct (Ascii.eqb c k).
Qed.

Lemma groupby_runs (s : string) :
  Forall (fun kg => exists m, snd kg = run (fst kg) (S m) /\
                              (S m <= String.length s)%nat /\
                              In (fst kg) (list_ascii_of_string s))
         (py.groupby s).
Proof.
  induction s as [|c s IH]; simpl; [constructor|].
  assert (IH' : Forall (fun kg => exists m, snd kg = run (fst kg) (S m) /\
                                  (S m <= S (String.length s))%nat /\
                                  (c = fst kg \/ In (fst kg) (list_ascii_of_string s)))
                       (py.groupby s)).
  { eapply Forall_impl; [exact IH|]. intros [k g] (m & Hg & Hm & Hin).
    exists m. repeat split; [assumption|lia|now right]. }
  destruct (py.groupby s) as [|[k g] gs].
  - constructor; [|constructor]. exists 0%nat. simpl. repeat split; [lia|now left].
  - inversion IH as [|? ? (m & Hg & Hm & Hin) Hgs]. inversion IH' as [|? ? _ Hgs']. subst.
    simpl in Hg, Hin. destruct (Ascii.eqb_spec c k) as [->|_].
    + constructor; [|assumption]. exists (S m). simpl. rewrite Hg.
      repeat split; [lia|now left].
    + constructor; [|constructor; [|assumption]].
      * exists 0%nat. simpl. repeat split; [lia|now left].
      * exists m. simpl. repeat split; [assumption|lia|now right].
Qed.

Lemma groupby_concat (s : string) : String.concat EmptyString (map snd (py.groupby s)) = s.
Proof.
  induction s as [|c s IH]; [reflexivity|]. simpl.
  destruct (py.groupby s) as [|[k g] gs]; [now destruct s|].
  change (map snd ((k, g) :: gs)) with (g :: map snd gs) in IH.
  rewrite concat_cons in IH.
  destruct (Ascii.eqb c k).
  - change (map snd ((k, String c g) :: gs)) with (String c g :: map snd gs).
    rewrite concat_cons. simpl. now rewrite IH.
  - change (map snd ((c, String c EmptyString) :: (k, g) :: gs))
      with (String c EmptyString :: g :: map snd gs).
    rewrite !concat_cons. simpl. rewrite <- concat_cons. simpl map in IH.
    now rewrite <- IH, concat_cons.
Qed.

(** *** Run-length encoding of a placement *)

Lemma replace_spaces_unfold (row : string) :
  replace_spaces row = String.concat EmptyString (map join_group (py.groupby row)).
Proof. reflexivity. Qed.

Lemma starts_without_slash (r : string) (rows : list string) :
  r <> EmptyString -> lacks "/" r = true ->
  match py.join "/" (r :: rows) with
  | String y _ => y <> "/"%char
  | EmptyString => True
  end.
Proof.
  intros Hne Hr. destruct r as [|y r]; [congruence|].
  change (negb (Ascii.eqb y "/") && lacks "/" r = true) in Hr.
  apply andb_true_iff in Hr as [Hy _]. apply negb_true_iff in Hy.
  assert (y <> "/"%char) by (intros ->; now rewrite Ascii.eqb_refl in Hy).
  destruct rows; assumption.
Qed.

Lemma replace_spaces_join (rows : list string) :
  Forall (fun r => r <> EmptyString /\ lacks "/" r = true) rows ->
  replace_spaces (py.join "/" rows) = py.join "/" (map replace_spaces rows).
Proof.
  induction 1 as [|r rows [Hne Hr] Hrows IH]; [reflexivity|].
  destruct rows as [|r' rows]; [reflexivity|].
  change (map replace_spaces (r :: r' :: rows))
    with (replace_spaces r :: replace_spaces r' :: map replace_spaces rows).
  rewrite !join_cons2.
  change (map replace_spaces (r' :: rows))
    with (replace_spaces r' :: map replace_spaces rows) in IH.
  rewrite <- IH.
  change ("/" ++ py.join "/" (r' :: rows)) with (String "/" (py.join "/" (r' :: rows))).
  rewrite (replace_spaces_unfold (r ++ _)), groupby_separator; [|assumption|].
  - rewrite map_app, concat_app.
    change (map join_group (("/"%char, "/") :: py.groupby (py.join "/" (r' :: rows))))
      with ("/" :: map join_group (py.groupby (py.join "/" (r' :: rows)))).
    now rewrite concat_cons.
  - inversion Hrows as [|? ? [Hne' Hr'] _]. now apply starts_without_slash.
Qed.

Lemma length_run (c : ascii) (n : nat) : String.length (run c n) = n.
Proof. induction n as [|n IH]; simpl; [reflexivity|]. now rewrite IH. Qed.

Lemma sub_digits_count (m : nat) :
  (S m <= 9)%nat -> py.sub_digits (py.str (Z.of_nat (S m))) = run " " (S m).
Proof.
  intros H. do 9 (destruct m as [|m]; [reflexivity|]). lia.
Qed.

Lemma sub_digits_group (k : ascii) (m : nat) :
  (S m <= 9)%nat -> py.is_digit k = false ->
  py.sub_digits (join_group (k, run k (S m))) = run k (S m).
Proof.
  intros Hm Hk. unfold join_group. destruct (Ascii.eqb_spec k " ") as [->|_].
  - rewrite length_run. now apply sub_digits_count.
  - apply sub_digits_no_digit. unfold no_digit. apply all_chars_run. now rewrite Hk.
Qed.

Lemma sub_digits_groups (gs : list (ascii * string)) :
  Forall (fun kg => exists m, snd kg = run (fst kg) (S m) /\ (S m <= 9)%nat /\
                              py.is_digit (fst kg) = false) gs ->
  py.sub_digits (String.concat EmptyString (map join_group gs))
  = String.concat EmptyString (map snd gs).
Proof.
  induction 1 as [|[k g] gs (m & Hg & Hm & Hk) _ IH]; [reflexivity|].
  cbn [fst snd] in Hg, Hk. subst g.
  change (map join_group ((k, run k (S m)) :: gs))
    with (join_group (k, run k (S m)) :: map join_group gs).
  change (map snd ((k, run k (S m)) :: gs)) with (run k (S m) :: map snd gs).
  now rewrite !concat_cons, sub_digits_app, IH, sub_digits_group.
Qed.

Lemma all_chars_In (p : ascii -> bool) (s : string) (c : ascii) :
  all_chars p s = true -> In c (list_ascii_of_string s) -> p c = true.
Proof.
  induction s as [|x s IH]; simpl; [tauto|].
  rewrite andb_true_iff. intros [Hx Hs] [<-|Hin]; [assumption|now apply IH].
Qed.

Lemma replace_spaces_row (r : string) :
  no_digit r = true -> (String.length r <= 9)%nat ->
  py.sub_digits (replace_spaces r) = r.
Proof.
  intros Hd Hlen. rewrite replace_spaces_unfold, sub_digits_groups.
  - apply groupby_concat.
  - eapply Forall_impl; [apply groupby_runs|].
    intros [k g] (m & Hg & Hm & Hin). exists m. repeat split; [assumption|lia|].
    apply (all_chars_In _ _ _ Hd) in Hin. now apply negb_true_iff in Hin.
Qed.

(** *** Decimal numerals *)

Lemma digit_is_no_space (c : ascii) :
  py.is_digit c = true -> negb (Ascii.eqb c " ") = true /\ py.is_space c = false.
Proof. destruct c as [[] [] [] [] [] [] [] []]; simpl; intros H; try discriminate; split; reflexivity. Qed.

Lemma string_of_uint_digits (d : uint) :
  all_chars py.is_digit (NilEmpty.string_of_uint d) = true.
Proof. induction d; simpl; auto. Qed.

Lemma str_no_space (z : Z) : no_space (py.str z) = true.
Proof.
  assert (H : forall d, lacks " " (NilEmpty.string_of_uint d) = true).
  { intros d. eapply all_chars_weaken; [|apply string_of_uint_digits].
    intros c Hc. now apply digit_is_no_space. }
  unfold py.str. destruct z as [|p|p]; [reflexivity|apply H|].
  simpl. unfold no_space, lacks. simpl. apply H.
Qed.

Lemma lstrip_no_space (s : string) :
  all_chars (fun c => negb (py.is_space c)) s = true -> py.lstrip s = s.
Proof.
  destruct s as [|c s]; simpl; [reflexivity|].
  rewrite andb_true_iff, negb_true_iff. now intros [-> _].
Qed.

Lemma rstrip_no_space (s : string) :
  all_chars (fun c => negb (py.is_space c)) s = true -> py.rstrip s = s.
Proof.
  induction s as [|c s IH]; simpl; [reflexivity|].
  rewrite andb_true_iff, negb_true_iff. intros [Hc Hs]. rewrite (IH Hs), Hc.
  now destruct s.
Qed.

Lemma digits_of_uint (d : uint) :
  d <> Nil -> py.digits (NilEmpty.string_of_uint d) = inr (Z.of_uint d).
Proof.
  intros Hd. unfold py.digits. rewrite NilEmpty.usu.
  destruct d; simpl; congruence.
Qed.

Lemma uint_no_space (d : uint) :
  all_chars (fun c => negb (py.is_space c)) (NilEmpty.string_of_uint d) = true.
Proof.
  eapply all_chars_weaken; [|apply string_of_uint_digits].
  intros c Hc. apply negb_true_iff. now apply digit_is_no_space.
Qed.

Lemma int_str (z : Z) : py.int (py.str z) = inr z.
Proof.
  unfold py.str, py.int. destruct z as [|p|p]; [reflexivity| |].
  - simpl Z.to_int. simpl NilEmpty.string_of_int.
    pose proof (Unsigned.to_uint_nonnil p) as Hnil.
    pose proof (Unsigned.of_to p) as Hof.
    rewrite lstrip_no_space, rstrip_no_space by apply uint_no_space.
    assert (E : py.digits (NilEmpty.string_of_uint (Pos.to_uint p)) = inr (Z.pos p)).
    { rewrite digits_of_uint by assumption. unfold Z.of_uint. now rewrite Hof. }
    destruct (Pos.to_uint p); [congruence|exact E..].
  - simpl Z.to_int. simpl NilEmpty.string_of_int.
    pose proof (Unsigned.to_uint_nonnil p) as Hnil.
    pose proof (Unsigned.of_to p) as Hof.
    assert (Hs : all_chars (fun c => negb (py.is_space c))
                   (String "-" (NilEmpty.string_of_uint (Pos.to_uint p))) = true)
      by (simpl; apply uint_no_space).
    rewrite lstrip_no_space, rstrip_no_space by exact Hs.
    rewrite digits_of_uint by assumption. unfold Z.of_uint. now rewrite Hof.
Qed.

Lemma lacks_concat (c : ascii) (l : list string) :
  Forall (fun s => lacks c s = true) l -> lacks c (String.concat EmptyString l) = true.
Proof.
  induction 1 as [|s l Hs _ IH]; [reflexivity|].
  rewrite concat_cons. unfold lacks in *. now rewrite all_chars_app, Hs, IH.
Qed.

Lemma replace_spaces_no_space (s : string) : no_space (replace_spaces s) = true.
Proof.
  rewrite replace_spaces_unfold. apply lacks_concat, Forall_map.
  eapply Forall_impl; [apply groupby_runs|].
  intros [k g] (m & Hg & _). cbn [fst snd] in Hg. unfold join_group.
  destruct (Ascii.eqb_spec k " ") as [->|Hk]; [apply str_no_space|].
  subst g. apply all_chars_run. apply negb_true_iff.
  now destruct (Ascii.eqb_spec k " ").
Qed.

(** ** The codec, cell by cell *)

Lemma cell_char_facts (o : option Piece) :
  negb (Ascii.eqb (cell_char o) "/") = true /\
  negb (py.is_digit (cell_char o)) = true.
Proof. destruct o as [[[] []]|]; split; reflexivity. Qed.

Lemma cell_char_piece (pc : Piece) :
  Ascii.eqb (cell_char (Some pc)) " " = false /\
  piece (cell_char (Some pc)) = inr pc /\
  abbreviation pc = String (cell_char (Some pc)) EmptyString.
Proof. destruct pc as [[] []]; repeat split; reflexivity. Qed.

Lemma row_string_facts (os : list (option Piece)) :
  lacks "/" (row_string os) = true /\
  no_digit (row_string os) = true /\
  String.length (row_string os) = length os.
Proof.
  unfold row_string, lacks, no_digit.
  induction os as [|o os (IH1 & IH2 & IH3)]; [repeat split|].
  destruct (cell_char_facts o) as [H1 H2]. simpl.
  rewrite H1, H2, IH1, IH2, IH3. repeat split.
Qed.

Lemma export_square_cell (b : Board) (n : Z) (l : ascii) :
  is_square (String l (py.str n)) = true ->
  export_square b n l
  = inr (String (cell_char (dict_get b (Some (String l (py.str n))))) EmptyString).
Proof.
  intros H. unfold export_square. rewrite (getitem_square b _ H). simpl.
  destruct (dict_get b (Some (String l (py.str n)))) as [pc|]; [|reflexivity].
  now destruct (cell_char_piece pc) as (_ & _ & ->).
Qed.

Lemma export_rank_row (b : Board) (n : Z) :
  In n axis_x ->
  export_rank b n
  = inr (row_string (map (fun y => dict_get b (square_key (8 - n) y))
                         [0; 1; 2; 3; 4; 5; 6; 7]) ++ "/").
Proof.
  intros Hn. unfold export_rank.
  rewrite (rmap_inr _ (fun l => String (cell_char
             (dict_get b (Some (String l (py.str n))))) EmptyString)).
  - simpl in Hn. repeat destruct Hn as [<-|Hn]; try reflexivity. destruct Hn.
  - intros l Hl. apply export_square_cell. simpl in Hn, Hl.
    repeat destruct Hn as [<-|Hn]; try destruct Hn;
      repeat destruct Hl as [<-|Hl]; try destruct Hl; reflexivity.
Qed.

Lemma export_ranks (b : Board) :
  rmap (export_rank b) (rev axis_x)
  = inr (map (fun os => row_string os ++ "/") (grid b)).
Proof.
  rewrite (rmap_inr _ (fun n => row_string
             (map (fun y => dict_get b (square_key (8 - n) y))
                  [0; 1; 2; 3; 4; 5; 6; 7]) ++ "/")).
  - reflexivity.
  - intros n Hn. apply export_rank_row. now apply in_rev.
Qed.

Lemma drop_last_snoc (s : string) (c : ascii) : drop_last (s ++ String c EmptyString) = s.
Proof.
  induction s as [|x s IH]; [reflexivity|].
  change (String x s ++ String c EmptyString) with (String x (s ++ String c EmptyString)).
  destruct s as [|y s]; [reflexivity|].
  change (drop_last (String x (String y s ++ String c EmptyString)))
    with (String x (drop_last (String y s ++ String c EmptyString))).
  now rewrite IH.
Qed.

Lemma ranks_join {A : Type} (f : A -> string) (l : list A) :
  l <> [] ->
  String.concat EmptyString (map (fun a => f a ++ "/") l) = py.join "/" (map f l) ++ "/".
Proof.
  induction l as [|r [|r' rows] IH]; intros Hne; [congruence| |].
  - reflexivity.
  - change (map (fun a => f a ++ "/") (r :: r' :: rows))
      with ((f r ++ "/") :: map (fun a => f a ++ "/") (r' :: rows)).
    change (map f (r :: r' :: rows)) with (f r :: f r' :: map f rows).
    rewrite concat_cons, IH, join_cons2 by congruence.
    now rewrite !app_assoc_s.
Qed.

Lemma export_run (b : Board) :
  export b
  = (t <~ turn_letter (player_turn b);
     inr (replace_spaces (py.join "/" (map row_string (grid b))) ++ " " ++
          py.join " " [t; castling b; en_passant b;
                       py.str (halfmove_clock b); py.str (fullmove_number b)])).
Proof.
  unfold export. rewrite export_ranks. unfold rbind at 1.
  rewrite ranks_join by (unfold grid; simpl; congruence).
  change (py.join "/" (map row_string (grid b)) ++ "/")
    with (py.join "/" (map row_string (grid b)) ++ String "/" EmptyString).
  now rewrite drop_last_snoc.
Qed.

Lemma set_squares_id (b : Board) : set_squares (fun m => m) b = b.
Proof. now destruct b. Qed.

Lemma load_square_cell (x y : Z) (o : option Piece) (b0 : Board) :
  load_square x (y, cell_char o) b0
  = (inr tt, set_squares (put_cell (square_key x y) o) b0).
Proof.
  unfold load_square. destruct o as [pc|].
  - destruct (cell_char_piece pc) as (-> & Hp & _).
    unfold bind, lift, modify, call. unfold square_key.
    destruct (letter_notation_total (7 - x, y)) as [k Ek]. rewrite Ek, Hp.
    assert (Hget : getitem (set_squares (insert k (Some pc)) b0) (coord_of_key k)
                   = inr (Some pc)).
    { destruct k as [s|]; simpl coord_of_key.
      - rewrite getitem_square by (now apply letter_notation_square in Ek).
        unfold dict_get. simpl. now rewrite lookup_insert_eq.
      - simpl. unfold dict_get. simpl. now rewrite lookup_insert_eq. }
    now rewrite Hget.
  - simpl. unfold ret. now destruct b0.
Qed.

Lemma load_row_cells (x : Z) (os : list (option Piece)) :
  forall y0 b0,
    forM_ (load_square x) (enumerate_from y0 (map cell_char os)) b0
    = (inr tt, set_squares (fill_row x y0 os) b0).
Proof.
  induction os as [|o os IH]; intros y0 b0.
  - simpl. unfold ret. now destruct b0.
  - change (forM_ (load_square x) (enumerate_from y0 (map cell_char (o :: os))) b0)
      with (bind (load_square x (y0, cell_char o))
              (fun _ => forM_ (load_square x)
                          (enumerate_from (y0 + 1) (map cell_char os))) b0).
    unfold bind. rewrite load_square_cell, IH. now destruct b0.
Qed.

Lemma load_rows (oss : list (list (option Piece))) :
  forall x0 b0,
    forM_ load_row (enumerate_from x0 (map row_string oss)) b0
    = (inr tt, set_squares (fill_rows x0 oss) b0).
Proof.
  induction oss as [|os oss IH]; intros x0 b0.
  - simpl. unfold ret. now destruct b0.
  - change (forM_ load_row (enumerate_from x0 (map row_string (os :: oss))) b0)
      with (bind (load_row (x0, row_string os))
              (fun _ => forM_ load_row
                          (enumerate_from (x0 + 1) (map row_string oss))) b0).
    unfold bind, load_row at 1, row_string at 1, enumerate.
    rewrite list_ascii_of_string_of_list_ascii, load_row_cells, IH.
    now destruct b0.
Qed.

Lemma load_fields (fen enc t ca ep : string) (hm fm : Z)
  (oss : list (list (option Piece))) (b0 : Board) :
  py.split " " fen = [enc; t; ca; ep; py.str hm; py.str fm] ->
  py.split "/" (py.sub_digits enc) = map row_string oss ->
  load fen b0
  = (inr tt,
     mkBoard (fill_rows 0 oss ∅)
             (Some (if String.eqb t "w" then "white" else "black"))
             ca ep hm fm (in_check b0) (in_mate b0)).
Proof.
  intros Hfen Hrows. unfold load, bind, modify, lift. rewrite Hfen.
  unfold py.index. cbn [nth_error]. rewrite Hrows. unfold enumerate. rewrite load_rows.
  rewrite !int_str. destruct b0. now destruct (String.eqb t "w").
Qed.

(** ** What [load] rebuilds *)


Lemma put_cell_other (k k' : key) (o : option Piece)
  (m : gmap (option string) (option Piece)) :
  k <> k' -> put_cell k o m !! k' = m !! k'.
Proof. intros H. destruct o; simpl; [now rewrite lookup_insert_ne|reflexivity]. Qed.

Lemma put_cell_same (k : key) (o : option Piece)
  (m : gmap (option string) (option Piece)) :
  put_cell k o m !! k = match o with Some pc => Some (Some pc) | None => m !! k end.
Proof. destruct o; simpl; [now rewrite lookup_insert_eq|reflexivity]. Qed.

Lemma refill_outside (b : Board) (ks : list key) (k : key) :
  ~ In k ks -> forall m, refill b ks m !! k = m !! k.
Proof.
  unfold refill. induction ks as [|k0 ks IH]; intros Hk m; [reflexivity|].
  simpl. rewrite IH by (intros H; apply Hk; now right).
  apply put_cell_other. intros ->. apply Hk. now left.
Qed.

Lemma refill_inside (b : Board) (ks : list key) (k : key) :
  In k ks ->
  forall m, refill b ks m !! k
            = match dict_get b k with Some pc => Some (Some pc) | None => m !! k end.
Proof.
  induction ks as [|k0 ks IH]; intros Hk m; [destruct Hk|].
  change (refill b (k0 :: ks) m) with (refill b ks (put_cell k0 (dict_get b k0) m)).
  destruct (in_dec (fun x y : option string => decide (x = y)) k ks) as [Hin|Hout].
  - rewrite (IH Hin). destruct (dict_get b k) eqn:E; [reflexivity|].
    destruct (decide (k0 = k)) as [->|Hne].
    + now rewrite put_cell_same, E.
    + now apply put_cell_other.
  - destruct Hk as [->|Hk]; [|contradiction].
    rewrite (refill_outside b ks k Hout). apply put_cell_same.
Qed.

Lemma fill_rows_grid (b : Board) : fill_rows 0 (grid b) ∅ = refill b all_squares ∅.
Proof. reflexivity. Qed.

Lemma is_file_cases (a : ascii) : is_file a = true -> In a axis_y.
Proof.
  destruct a as [[] [] [] [] [] [] [] []]; simpl; intros H; try discriminate;
    repeat (first [left; reflexivity | right]).
Qed.

Lemma is_rank_digit_cases (d : ascii) :
  is_rank_digit d = true -> In d ["1"; "2"; "3"; "4"; "5"; "6"; "7"; "8"]%char.
Proof.
  destruct d as [[] [] [] [] [] [] [] []]; simpl; intros H; try discriminate;
    repeat (first [left; reflexivity | right]).
Qed.

Lemma is_square_listed (s : string) : is_square s = true -> In (Some s) all_squares.
Proof.
  intros H. destruct (is_square_chars s H) as (a & d & -> & Ha & Hd).
  apply is_file_cases in Ha. apply is_rank_digit_cases in Hd.
  simpl in Ha, Hd.
  repeat destruct Ha as [<-|Ha]; try destruct Ha;
    repeat destruct Hd as [<-|Hd]; try destruct Hd;
    vm_compute; repeat (first [left; reflexivity | right]).
Qed.

Lemma refill_wf (b : Board) : wf_squares b -> refill b all_squares ∅ = squares b.
Proof.
  intros Hwf. apply map_eq. intros k.
  destruct (in_dec (fun x y : option string => decide (x = y)) k all_squares)
    as [Hin|Hout].
  - rewrite (refill_inside b all_squares k Hin). unfold dict_get.
    destruct (squares b !! k) as [v|] eqn:E; [|reflexivity].
    now destruct (wf_squares_lookup b k v Hwf E) as (s & pc & _ & -> & _).
  - rewrite (refill_outside b all_squares k Hout), lookup_empty.
    destruct (squares b !! k) as [v|] eqn:E; [|reflexivity].
    destruct (wf_squares_lookup b k v Hwf E) as (s & pc & -> & _ & Hs).
    exfalso. apply Hout. now apply is_square_listed.
Qed.

(** ** Export, then load *)

Lemma grid_rows (b : Board) :
  Forall (fun r => (r <> EmptyString /\ lacks "/" r = true) /\
                   no_digit r = true /\ (String.length r <= 9)%nat)
         (map row_string (grid b)).
Proof.
  apply Forall_map, List.Forall_forall. intros os Hos. unfold grid in Hos.
  apply in_map_iff in Hos as (x & <- & _).
  destruct (row_string_facts (map (fun y => dict_get b (square_key x y))
                                  [0; 1; 2; 3; 4; 5; 6; 7])) as (H1 & H2 & H3).
  simpl length in H3. repeat split; try assumption; [|lia].
  intros E. rewrite E in H3. discriminate.
Qed.

Lemma placement_round_trip (b : Board) :
  py.split "/" (py.sub_digits (replace_spaces (py.join "/" (map row_string (grid b)))))
  = map row_string (grid b).
Proof.
  pose proof (grid_rows b) as H.
  rewrite replace_spaces_join
    by (eapply Forall_impl; [exact H|]; intros r [Hr _]; exact Hr).
  rewrite sub_digits_join, map_map.
  assert (E : map (fun r => py.sub_digits (replace_spaces r)) (map row_string (grid b))
              = map row_string (grid b)).
  { induction H as [|r rows (_ & Hd & Hl) _ IH]; [reflexivity|].
    simpl. now rewrite replace_spaces_row, IH. }
  rewrite E. apply split_join.
  - unfold grid. simpl. congruence.
  - eapply Forall_impl; [exact H|]. intros r [[_ Hr] _]. exact Hr.
Qed.

Lemma export_fields_split (enc t ca ep hm fm : string) :
  no_space enc = true -> no_space t = true -> no_space ca = true ->
  no_space ep = true -> no_space hm = true -> no_space fm = true ->
  py.split " " (enc ++ " " ++ py.join " " [t; ca; ep; hm; fm])
  = [enc; t; ca; ep; hm; fm].
Proof.
  intros H0 H1 H2 H3 H4 H5.
  change (enc ++ " " ++ py.join " " [t; ca; ep; hm; fm])
    with (enc ++ String " " (t ++ String " " (ca ++ String " " (ep ++
            String " " (hm ++ String " " fm))))).
  unfold no_space in *.
  rewrite !split_app by assumption. now rewrite split_lacks.
Qed.

(** A board that is well formed is rebuilt by [load] from what [export]
    writes. *)
Lemma canonical_round_trip (b : Board) :
  canonical b ->
  exists fen b',
    export b = inr fen /\
    new_Board (Some fen) = inr b' /\
    squares b' = squares b /\
    player_turn b' = player_turn b /\
    castling b' = castling b /\
    en_passant b' = en_passant b /\
    halfmove_clock b' = halfmove_clock b /\
    fullmove_number b' = fullmove_number b.
Proof.
  intros (Hwf & Hturn & Hca & Hep).
  set (enc := replace_spaces (py.join "/" (map row_string (grid b)))).
  assert (Ht : exists t, turn_letter (player_turn b) = inr t /\ no_space t = true /\
                         Some (if String.eqb t "w" then "white" else "black")
                         = player_turn b).
  { destruct Hturn as [-> | ->]; [exists "w"|exists "b"]; repeat split. }
  destruct Ht as (t & Et & Hts & Hback).
  exists (enc ++ " " ++ py.join " " [t; castling b; en_passant b;
                                     py.str (halfmove_clock b);
                                     py.str (fullmove_number b)]).
  eexists. split; [rewrite export_run, Et; reflexivity|].
  unfold new_Board, init.
  rewrite (load_fields _ enc t (castling b) (en_passant b)
             (halfmove_clock b) (fullmove_number b) (grid b)).
  - split; [reflexivity|].
    cbn [squares player_turn castling en_passant halfmove_clock fullmove_number].
    rewrite fill_rows_grid, (refill_wf b Hwf). repeat split. exact Hback.
  - apply export_fields_split; try assumption;
      [apply replace_spaces_no_space|apply str_no_space..].
  - apply placement_round_trip.
Qed.

Lemma export_same (b b' : Board) :
  squares b' = squares b -> player_turn b' = player_turn b ->
  castling b' = castling b -> en_passant b' = en_passant b ->
  halfmove_clock b' = halfmove_clock b -> fullmove_number b' = fullmove_number b ->
  export b' = export b.
Proof.
  intros H1 H2 H3 H4 H5 H6. rewrite !export_run.
  assert (E : grid b' = grid b) by (unfold grid, dict_get; now rewrite H1).
  now rewrite E, H2, H3, H4, H5, H6.
Qed.

(** ** The boards of a game *)

Lemma finish_move_fields (pc : Piece) (dest : option Piece) (p2 : string) (g : Game) :
  exists g', _finish_move pc dest p2 g = (inr tt, g') /\
    squares (self g') = squares (self g) /\
    player_turn (self g') = Some (get_enemy (color pc)) /\
    castling (self g') = castling (self g) /\
    en_passant (self g') = en_passant (self g).
Proof.
  destruct g as [b h], pc as [k c].
  destruct k, c, dest; eexists; (split; [reflexivity|]); repeat split.
Qed.

Lemma getitem_occupied (b : Board) (s : string) (pc : Piece) :
  getitem b (CStr (py.upper s)) = inr (Some pc) ->
  squares b !! Some (py.upper s) = Some (Some pc).
Proof.
  unfold getitem. rewrite !upper_idem.
  destruct (negb (RANK_REGEX (py.upper s))); [discriminate|].
  unfold dict_get. intros [= H].
  now destruct (squares b !! Some (py.upper s)) as [v|]; subst.
Qed.

Lemma successful_move
  (pm : Board -> Piece -> key -> list string) (g g' : Game) (p1 p2 : string) :
  in_bounds pm -> wf_squares (self g) ->
  move pm p1 p2 g = (inr tt, g') ->
  exists pc,
    squares (self g') = <[Some (py.upper p2) := Some pc]>
                          (delete (Some (py.upper p1)) (squares (self g))) /\
    is_square (py.upper p2) = true /\
    player_turn (self g') = Some (get_enemy (color pc)) /\
    castling (self g') = castling (self g) /\
    en_passant (self g') = en_passant (self g).
Proof.
  intros Hpm Hwf. unfold move, bind, call, gets, raise, ret.
  set (P1 := py.upper p1). set (P2 := py.upper p2).
  destruct (getitem (self g) (CStr P1)) as [e1|piece] eqn:E1; [congruence|].
  destruct (getitem (self g) (CStr P2)) as [e2|dest] eqn:E2; [congruence|].
  destruct piece as [pc|]; [|congruence].
  destruct (negb (bool_decide (player_turn (self g) = Some (color pc))));
    [congruence|].
  destruct (all_legal_piece_moves pm (self g) (Some P1)) as [e3|l] eqn:E3;
    [congruence|].
  destruct (bool_decide_reflect (Some P2 ∈ l)) as [Hin|_]; simpl; [|congruence].
  apply list_elem_of_In in Hin.
  destruct (legal_move_is_safe pm (self g) (Some P1) P2 l E3 Hin)
    as (_ & pc' & _ & Hpc').
  apply (Hpm _ _ _ _) in Hpc'.
  apply getitem_occupied in E1. fold P1 in E1.
  unfold on_self at 1. rewrite (do_move_square (self g) P1 P2 pc Hwf E1).
  destruct (finish_move_fields pc dest P2
              (mkGame (set_squares (insert (Some P2) (Some pc))
                         (set_squares (delete (Some P1)) (self g))) (history g)))
    as (g1 & -> & Hsq & Hturn & Hca & Hep).
  destruct (is_in_check pm (self g1) (get_enemy (color pc))) as [e|r];
    [discriminate|].
  intros H. exists pc. destruct r; unfold on_self, modify in H; injection H as <-;
    simpl; rewrite Hsq, Hturn, Hca, Hep; repeat split; assumption.
Qed.

Lemma start_board_built : new_Board None = inr start_board.
Proof. vm_compute. reflexivity. Qed.

Lemma start_board_canonical : canonical start_board.
Proof.
  split; [apply wf_squares_check; vm_compute; reflexivity|].
  split; [now left|]. split; reflexivity.
Qed.

Lemma reachable_canonical
  (pm : Board -> Piece -> key -> list string) (g : Game) :
  in_bounds pm -> reachable pm g -> canonical (self g).
Proof.
  intros Hpm. induction 1 as [h|g g' p1 p2 _ IH Hmove].
  - exact start_board_canonical.
  - destruct IH as (Hwf & _ & Hca & Hep).
    destruct (successful_move pm g g' p1 p2 Hpm Hwf Hmove)
      as (pc & Hsq & Hp2 & Hturn & Hca' & Hep').
    split; [|split; [|split]].
    + unfold wf_squares. rewrite Hsq.
      apply map_Forall_insert_2; [assumption|]. now apply map_Forall_delete.
    + rewrite Hturn. unfold get_enemy.
      destruct (String.eqb (color pc) "white"); [now right|now left].
    + now rewrite Hca'.
    + now rewrite Hep'.
Qed.

(** C7: exporting and loading again.  For the starting position and for
    every board that successful moves make of it (the destinations of the
    catalogue being squares), [export] returns a string, constructing a
    board from that string succeeds, and the new board has the same
    dictionary of occupants, the same player to move, castling string,
    en-passant field, halfmove clock and fullmove number, and hence the
    same exported string, placement included. *)
Theorem export_then_load_restores_the_board
  (pm : Board -> Piece -> key -> list string) (g : Game) :
  in_bounds pm -> reachable pm g ->
  exists fen b',
    export (self g) = inr fen /\
    new_Board (Some fen) = inr b' /\
    squares b' = squares (self g) /\
    player_turn b' = player_turn (self g) /\
    castling b' = castling (self g) /\
    en_passant b' = en_passant (self g) /\
    halfmove_clock b' = halfmove_clock (self g) /\
    fullmove_number b' = fullmove_number (self g) /\
    export b' = inr fen.
Proof.
  intros Hpm Hg.
  destruct (canonical_round_trip (self g) (reachable_canonical pm g Hpm Hg))
    as (fen & b' & Hex & Hnew & H1 & H2 & H3 & H4 & H5 & H6).
  exists fen, b'. repeat split; try assumption.
  rewrite <- Hex. now apply export_same.
Qed.

Lemma export_then_load_restores_the_board_witness :
  exists fen b',
    export (self (play "E2" "E4" (mkGame start_board []))) = inr fen /\
    new_Board (Some fen) = inr b' /\
    squares b' = squares (self (play "E2" "E4" (mkGame start_board []))) /\
    player_turn b' = player_turn (self (play "E2" "E4" (mkGame start_board []))) /\
    castling b' = castling (self (play "E2" "E4" (mkGame start_board []))) /\
    en_passant b' = en_passant (self (play "E2" "E4" (mkGame start_board []))) /\
    halfmove_clock b'
    = halfmove_clock (self (play "E2" "E4" (mkGame start_board []))) /\
    fullmove_number b'
    = fullmove_number (self (play "E2" "E4" (mkGame start_board []))) /\
    export b' = inr fen.
Proof.
  apply (export_then_load_restores_the_board catalogue.possible_moves).
  - exact catalogue_in_bounds.
  - apply (reachable_move catalogue.possible_moves (mkGame start_board []) _ "E2" "E4").
    + apply reachable_start.
    + vm_compute. reflexivity.
Defined.

Example round_trip_after_e4 :
  export (self (play "E2" "E4" (mkGame start_board [])))
  = inr "rnbqkbnr/pppppppp/8/8/4P3/8/PPPP1PPP/RNBQKBNR b KQkq - 0 1" /\
  (b' <~ new_Board (Some "rnbqkbnr/pppppppp/8/8/4P3/8/PPPP1PPP/RNBQKBNR b KQkq - 0 1");
   export b')
  = inr "rnbqkbnr/pppppppp/8/8/4P3/8/PPPP1PPP/RNBQKBNR b KQkq - 0 1".
Proof. vm_compute. split; reflexivity. Qed.

(** * Further properties of the engine *)

(** ** What a successful move does *)

Lemma finish_move_run (pc : Piece) (dest : option Piece) (p2 : string) (g : Game) :
  _finish_move pc dest p2 g
  = (inr tt,
     mkGame
       (mkBoard (squares (self g))
                (Some (get_enemy (color pc)))
                (castling (self g)) (en_passant (self g))
                (if String.eqb (abbreviation pc) "P" then 0
                 else match dest with
                      | Some _ => 0
                      | None => halfmove_clock (self g) + 1
                      end)
                (if String.eqb (color pc) "black"
                 then fullmove_number (self g) + 1
                 else fullmove_number (self g))
                (in_check (self g)) (in_mate (self g)))
       (history g ++ [movetext pc dest p2])).
Proof. destruct g as [b h], pc as [k c]. destruct k, c, dest; reflexivity. Qed.

Lemma do_move_occupied (b : Board) (p1 p2 : string) (pc : Piece) :
  getitem b (CStr (py.upper p1)) = inr (Some pc) ->
  _do_move (Some (py.upper p1)) (Some p2) b
  = (inr tt, set_squares (insert (Some p2) (Some pc))
               (set_squares (delete (Some (py.upper p1))) b)).
Proof.
  intros H. rewrite do_move_run. simpl coord_of_key. rewrite H.
  apply getitem_occupied in H.
  now rewrite bool_decide_eq_true_2 by eauto.
Qed.

(** The board on which the piece of [p1] stands on [p2]. *)
Lemma move_success_parts
  (pm : Board -> Piece -> key -> list string) (g g' : Game) (p1 p2 : string) :
  move pm p1 p2 g = (inr tt, g') ->
  exists pc dest l r,
    getitem (self g) (CStr (py.upper p1)) = inr (Some pc) /\
    getitem (self g) (CStr (py.upper p2)) = inr dest /\
    player_turn (self g) = Some (color pc) /\
    all_legal_piece_moves pm (self g) (Some (py.upper p1)) = inr l /\
    In (Some (py.upper p2)) l /\
    exists g1,
      _finish_move pc dest (py.upper p2)
        (mkGame (set_squares (insert (Some (py.upper p2)) (Some pc))
                   (set_squares (delete (Some (py.upper p1))) (self g)))
                (history g)) = (inr tt, g1) /\
      is_in_check pm (self g1) (get_enemy (color pc)) = inr r /\
      g' = mkGame (set_in_check (if r then (get_enemy (color pc), true)
                                 else (EmptyString, false)) (self g1))
                  (history g1).
Proof.
  unfold move, bind, call, gets, raise, ret.
  set (P1 := py.upper p1). set (P2 := py.upper p2).
  destruct (getitem (self g) (CStr P1)) as [e1|piece] eqn:E1; [congruence|].
  destruct (getitem (self g) (CStr P2)) as [e2|dest] eqn:E2; [congruence|].
  destruct piece as [pc|]; [|congruence].
  destruct (bool_decide_reflect (player_turn (self g) = Some (color pc)))
    as [Hturn|_]; simpl; [|congruence].
  destruct (all_legal_piece_moves pm (self g) (Some P1)) as [e3|l] eqn:E3;
    [congruence|].
  destruct (bool_decide_reflect (Some P2 ∈ l)) as [Hin|_]; simpl; [|congruence].
  apply list_elem_of_In in Hin.
  pose proof (do_move_occupied (self g) p1 P2 pc E1) as Hdo. fold P1 in Hdo.
  unfold on_self at 1. rewrite Hdo, finish_move_run.
  match goal with
  | |- context [is_in_check pm (self ?g1) _] => set (G1 := g1)
  end.
  destruct (is_in_check pm (self G1) (get_enemy (color pc))) as [e|r] eqn:E4;
    [discriminate|].
  intros H. exists pc, dest, l, r.
  split; [reflexivity|]. split; [reflexivity|]. split; [exact Hturn|].
  split; [reflexivity|]. split; [exact Hin|].
  eexists. split; [apply finish_move_run|]. split; [exact E4|].
  destruct r; unfold on_self, modify in H; injection H as <-; reflexivity.
Qed.

Lemma move_success_state
  (pm : Board -> Piece -> key -> list string) (g g' : Game) (p1 p2 : string) :
  move pm p1 p2 g = (inr tt, g') ->
  exists pc dest,
    getitem (self g) (CStr (py.upper p1)) = inr (Some pc) /\
    getitem (self g) (CStr (py.upper p2)) = inr dest /\
    player_turn (self g) = Some (color pc) /\
    squares (self g') = <[Some (py.upper p2) := Some pc]>
                          (delete (Some (py.upper p1)) (squares (self g))) /\
    player_turn (self g') = Some (get_enemy (color pc)) /\
    castling (self g') = castling (self g) /\
    en_passant (self g') = en_passant (self g) /\
    in_mate (self g') = in_mate (self g) /\
    halfmove_clock (self g') =
      (if String.eqb (abbreviation pc) "P" then 0
       else match dest with
            | Some _ => 0
            | None => halfmove_clock (self g) + 1
            end) /\
    fullmove_number (self g') =
      (if String.eqb (color pc) "black" then fullmove_number (self g) + 1
       else fullmove_number (self g)) /\
    history g' = (history g ++ [movetext pc dest (py.upper p2)])%list.
Proof.
  intros H.
  destruct (move_success_parts pm g g' p1 p2 H)
    as (pc & dest & l & r & H1 & H2 & H3 & _ & _ & g1 & Hfin & _ & ->).
  rewrite finish_move_run in Hfin. injection Hfin as <-.
  exists pc, dest. repeat (split; [assumption|]). repeat split.
Qed.

(** X1: a successful [move] alternates the turn.  The piece that moved
    belonged to the player whose turn it was, and afterwards it is the turn
    of the other colour. *)
Theorem move_alternates_turn
  (pm : Board -> Piece -> key -> list string) (g g' : Game) (p1 p2 : string) :
  move pm p1 p2 g = (inr tt, g') ->
  exists pc,
    getitem (self g) (CStr (py.upper p1)) = inr (Some pc) /\
    player_turn (self g) = Some (color pc) /\
    player_turn (self g') = Some (get_enemy (color pc)) /\
    player_turn (self g') <> player_turn (self g).
Proof.
  intros H. destruct (move_success_state pm g g' p1 p2 H)
    as (pc & dest & H1 & _ & H3 & _ & H5 & _).
  exists pc. repeat (split; [assumption|]).
  rewrite H3, H5. now destruct pc as [k []].
Qed.

Lemma move_alternates_turn_witness :
  exists pc,
    getitem (self after_Nf3) (CStr (py.upper "e7")) = inr (Some pc) /\
    player_turn (self after_Nf3) = Some (color pc) /\
    player_turn (self (play "e7" "e5" after_Nf3)) = Some (get_enemy (color pc)) /\
    player_turn (self (play "e7" "e5" after_Nf3)) <> player_turn (self after_Nf3).
Proof.
  apply (move_alternates_turn catalogue.possible_moves after_Nf3
           (play "e7" "e5" after_Nf3) "e7" "e5").
  vm_compute. reflexivity.
Defined.

(** X2: a successful [move] counts full moves.  The fullmove number grows
    by one when it was black's turn and stays as it is when it was
    white's. *)
Theorem move_counts_fullmoves
  (pm : Board -> Piece -> key -> list string) (g g' : Game) (p1 p2 : string) :
  move pm p1 p2 g = (inr tt, g') ->
  (player_turn (self g) = Some "black" /\
   fullmove_number (self g') = fullmove_number (self g) + 1) \/
  (player_turn (self g) = Some "white" /\
   fullmove_number (self g') = fullmove_number (self g)).
Proof.
  intros H. destruct (move_success_state pm g g' p1 p2 H)
    as (pc & dest & _ & _ & H3 & _ & _ & _ & _ & _ & _ & H10 & _).
  rewrite H3, H10. destruct pc as [k []]; [right|left]; split; reflexivity.
Qed.

Lemma move_counts_fullmoves_witness :
  (player_turn (self after_Nf3) = Some "black" /\
   fullmove_number (self (play "E7" "E5" after_Nf3))
   = fullmove_number (self after_Nf3) + 1) \/
  (player_turn (self after_Nf3) = Some "white" /\
   fullmove_number (self (play "E7" "E5" after_Nf3))
   = fullmove_number (self after_Nf3)).
Proof.
  apply (move_counts_fullmoves catalogue.possible_moves after_Nf3
           (play "E7" "E5" after_Nf3) "E7" "E5").
  vm_compute. reflexivity.
Defined.

(** X3: a successful [move] relocates one piece.  The dictionary afterwards
    is the one before with the origin removed and the destination bound to
    the piece that stood on the origin; every other entry is as it was, and
    what stood on the destination is gone. *)
Theorem move_relocates_piece
  (pm : Board -> Piece -> key -> list string) (g g' : Game) (p1 p2 : string) :
  move pm p1 p2 g = (inr tt, g') ->
  exists pc,
    squares (self g) !! Some (py.upper p1) = Some (Some pc) /\
    squares (self g') = <[Some (py.upper p2) := Some pc]>
                          (delete (Some (py.upper p1)) (squares (self g))) /\
    squares (self g') !! Some (py.upper p2) = Some (Some pc) /\
    (py.upper p1 <> py.upper p2 -> squares (self g') !! Some (py.upper p1) = None) /\
    (forall k, k <> Some (py.upper p1) -> k <> Some (py.upper p2) ->
               squares (self g') !! k = squares (self g) !! k).
Proof.
  intros H. destruct (move_success_state pm g g' p1 p2 H)
    as (pc & dest & H1 & _ & _ & H4 & _).
  exists pc. split; [now apply getitem_occupied|]. split; [assumption|].
  rewrite H4. split; [apply lookup_insert_eq|]. split.
  - intros Hne. rewrite lookup_insert_ne by congruence. apply lookup_delete_eq.
  - intros k Hk1 Hk2. rewrite lookup_insert_ne by congruence.
    now rewrite lookup_delete_ne by congruence.
Qed.

Lemma move_relocates_piece_witness :
  exists pc,
    squares (self after_Nf3) !! Some (py.upper "e7") = Some (Some pc) /\
    squares (self (play "e7" "e5" after_Nf3))
    = <[Some (py.upper "e5") := Some pc]>
        (delete (Some (py.upper "e7")) (squares (self after_Nf3))) /\
    squares (self (play "e7" "e5" after_Nf3)) !! Some (py.upper "e5")
    = Some (Some pc) /\
    (py.upper "e7" <> py.upper "e5" ->
     squares (self (play "e7" "e5" after_Nf3)) !! Some (py.upper "e7") = None) /\
    (forall k, k <> Some (py.upper "e7") -> k <> Some (py.upper "e5") ->
               squares (self (play "e7" "e5" after_Nf3)) !! k
               = squares (self after_Nf3) !! k).
Proof.
  apply (move_relocates_piece catalogue.possible_moves after_Nf3
           (play "e7" "e5" after_Nf3) "e7" "e5").
  vm_compute. reflexivity.
Defined.

(** X4: a successful [move] appends exactly one record to the history: the
    abbreviation of the piece (nothing for a piece whose abbreviation is
    [P]), an [x] when the destination was occupied, and the destination in
    lowercase.  Earlier records are kept. *)
Theorem move_appends_one_record
  (pm : Board -> Piece -> key -> list string) (g g' : Game) (p1 p2 : string) :
  move pm p1 p2 g = (inr tt, g') ->
  exists pc dest,
    getitem (self g) (CStr (py.upper p1)) = inr (Some pc) /\
    getitem (self g) (CStr (py.upper p2)) = inr dest /\
    history g' =
      (history g ++
       [((if String.eqb (abbreviation pc) "P" then EmptyString else abbreviation pc) ++
         (match dest with Some _ => "x" | None => EmptyString end) ++
         py.lower (py.upper p2))%string])%list.
Proof.
  intros H. destruct (move_success_state pm g g' p1 p2 H)
    as (pc & dest & H1 & H2 & _ & _ & _ & _ & _ & _ & _ & _ & H11).
  exists pc, dest. repeat (split; [assumption|]).
  rewrite H11. unfold movetext. now destruct dest.
Qed.

Lemma move_appends_one_record_witness :
  exists pc dest,
    getitem (self after_Nf3) (CStr (py.upper "E7")) = inr (Some pc) /\
    getitem (self after_Nf3) (CStr (py.upper "E5")) = inr dest /\
    history (play "E7" "E5" after_Nf3) =
      (history after_Nf3 ++
       [((if String.eqb (abbreviation pc) "P" then EmptyString else abbreviation pc) ++
         (match dest with Some _ => "x" | None => EmptyString end) ++
         py.lower (py.upper "E5"))%string])%list.
Proof.
  apply (move_appends_one_record catalogue.possible_moves after_Nf3
           (play "E7" "E5" after_Nf3) "E7" "E5").
  vm_compute. reflexivity.
Defined.

(** X5: the halfmove clock after a successful [move] is 0 when the
    destination was occupied or a white pawn moved, and one more than
    before when a piece other than a pawn moved to an empty square. *)
Theorem move_clock_on_capture_and_quiet_move
  (pm : Board -> Piece -> key -> list string) (g g' : Game) (p1 p2 : string) :
  move pm p1 p2 g = (inr tt, g') ->
  exists pc dest,
    getitem (self g) (CStr (py.upper p1)) = inr (Some pc) /\
    getitem (self g) (CStr (py.upper p2)) = inr dest /\
    (dest <> None -> halfmove_clock (self g') = 0) /\
    (pc = mkPiece Pawn white -> halfmove_clock (self g') = 0) /\
    (dest = None -> kind pc <> Pawn ->
     halfmove_clock (self g') = halfmove_clock (self g) + 1).
Proof.
  intros H. destruct (move_success_state pm g g' p1 p2 H)
    as (pc & dest & H1 & H2 & _ & _ & _ & _ & _ & _ & H9 & _).
  exists pc, dest. repeat (split; [assumption|]). rewrite H9. repeat split.
  - intros Hd. destruct dest; [|congruence].
    now destruct (String.eqb (abbreviation pc) "P").
  - now intros ->.
  - intros -> Hk. destruct pc as [[] []]; simpl in *; congruence.
Qed.

Lemma move_clock_on_capture_and_quiet_move_witness :
  exists pc dest,
    getitem (self after_Nf3) (CStr (py.upper "B8")) = inr (Some pc) /\
    getitem (self after_Nf3) (CStr (py.upper "C6")) = inr dest /\
    (dest <> None -> halfmove_clock (self (play "B8" "C6" after_Nf3)) = 0) /\
    (pc = mkPiece Pawn white ->
     halfmove_clock (self (play "B8" "C6" after_Nf3)) = 0) /\
    (dest = None -> kind pc <> Pawn ->
     halfmove_clock (self (play "B8" "C6" after_Nf3))
     = halfmove_clock (self after_Nf3) + 1).
Proof.
  apply (move_clock_on_capture_and_quiet_move catalogue.possible_moves
           after_Nf3 (play "B8" "C6" after_Nf3) "B8" "C6").
  vm_compute. reflexivity.
Defined.

(** X6: [move] never touches the castling string, the en-passant field or
    the mate flag, whichever piece moves. *)
Theorem move_keeps_castling_and_en_passant
  (pm : Board -> Piece -> key -> list string) (g g' : Game) (p1 p2 : string)
  (r : Res unit) :
  move pm p1 p2 g = (r, g') ->
  castling (self g') = castling (self g) /\
  en_passant (self g') = en_passant (self g) /\
  in_mate (self g') = in_mate (self g).
Proof.
  unfold move, bind, call, gets, raise, ret.
  set (P1 := py.upper p1). set (P2 := py.upper p2).
  destruct (getitem (self g) (CStr P1)) as [e1|piece]; [now intros [= _ <-]|].
  destruct (getitem (self g) (CStr P2)) as [e2|dest]; [now intros [= _ <-]|].
  destruct piece as [pc|]; [|now intros [= _ <-]].
  destruct (negb (bool_decide (player_turn (self g) = Some (color pc))));
    [now intros [= _ <-]|].
  destruct (all_legal_piece_moves pm (self g) (Some P1)) as [e3|l];
    [now intros [= _ <-]|].
  destruct (negb (bool_decide (Some P2 ∈ l))); [now intros [= _ <-]|].
  unfold on_self at 1. rewrite do_move_run.
  destruct (getitem (self g) (coord_of_key (Some P1))) as [e|piece];
    [now intros [= _ <-]|].
  destruct (bool_decide (is_Some (squares (self g) !! Some P1)));
    [|now intros [= _ <-]].
  rewrite finish_move_run.
  match goal with
  | |- context [is_in_check pm ?b ?c] => destruct (is_in_check pm b c) as [e|[|]]
  end; unfold on_self, modify; now intros [= _ <-].
Qed.

Lemma move_keeps_castling_and_en_passant_witness :
  castling (self (play "E8" "E7" after_Nf3)) = castling (self after_Nf3) /\
  en_passant (self (play "E8" "E7" after_Nf3)) = en_passant (self after_Nf3) /\
  in_mate (self (play "E8" "E7" after_Nf3)) = in_mate (self after_Nf3).
Proof.
  apply (move_keeps_castling_and_en_passant catalogue.possible_moves
           after_Nf3 (play "E8" "E7" after_Nf3) "E8" "E7" (inl InvalidMove)).
  vm_compute. reflexivity.
Defined.

(** ** Check after a move *)

Lemma getitem_same_squares (b1 b2 : Board) (c : Coord) :
  squares b1 = squares b2 -> getitem b1 c = getitem b2 c.
Proof. intros H. unfold getitem, dict_get. now rewrite H. Qed.

Lemma rmap_pointwise {A B : Type} (f f' : A -> Res B) (l : list A) :
  (forall a, f a = f' a) -> rmap f l = rmap f' l.
Proof.
  intros H. induction l as [|a l IH]; [reflexivity|].
  simpl. now rewrite H, IH.
Qed.

Section SquaresOnly.

Variable pm : Board -> Piece -> key -> list string.
Hypothesis Hpm : squares_only pm.

Lemma all_possible_moves_loop_same (b1 b2 : Board) (c : string) (ks : list key) :
  squares b1 = squares b2 ->
  forall acc, all_possible_moves_loop pm b1 c acc ks
              = all_possible_moves_loop pm b2 c acc ks.
Proof.
  intros H. induction ks as [|k ks IH]; intros acc; [reflexivity|].
  simpl. rewrite (getitem_same_squares b1 b2 _ H).
  destruct (getitem b2 (coord_of_key k)) as [e|[pc|]]; simpl; auto.
  rewrite (Hpm b1 b2 H pc k).
  destruct (String.eqb (color pc) c); auto.
  destruct (pm b2 pc k); auto.
Qed.

Lemma get_king_position_loop_same (b1 b2 : Board) (c : string) (ks : list key) :
  squares b1 = squares b2 ->
  get_king_position_loop b1 c ks = get_king_position_loop b2 c ks.
Proof.
  intros H. induction ks as [|k ks IH]; [reflexivity|].
  simpl. rewrite (getitem_same_squares b1 b2 _ H).
  destruct (getitem b2 (coord_of_key k)) as [e|p]; simpl; [reflexivity|].
  destruct (is_king p); [|assumption].
  destruct (attr color p); simpl; [reflexivity|].
  now destruct (String.eqb s c).
Qed.

Lemma is_in_check_same (b1 b2 : Board) (c : string) :
  squares b1 = squares b2 -> is_in_check pm b1 c = is_in_check pm b2 c.
Proof.
  intros H.
  unfold is_in_check, get_king, get_king_position, all_possible_moves, rbind.
  rewrite (keys_same_squares b1 b2 H), (get_king_position_loop_same b1 b2 c _ H).
  destruct (negb (valid_color c)); [reflexivity|].
  destruct (get_king_position_loop b2 c (keys b2)) as [e|pos]; [reflexivity|].
  rewrite (getitem_same_squares b1 b2 _ H).
  destruct (getitem b2 (coord_of_key pos)) as [e|king]; [reflexivity|].
  destruct (negb (valid_color (get_enemy c))); [reflexivity|].
  rewrite (all_possible_moves_loop_same b1 b2 _ _ H).
  destruct (all_possible_moves_loop pm b2 (get_enemy c) [] (keys b2)) as [e|l];
    [reflexivity|].
  rewrite (rmap_pointwise (fun m => getitem b1 (CStr m))
             (fun m => getitem b2 (CStr m)));
    [reflexivity|].
  intros m. now apply getitem_same_squares.
Qed.

End SquaresOnly.

Lemma target_same (b1 b2 : Board) (t : Z * Z) :
  squares b1 = squares b2 -> catalogue.target b1 t = catalogue.target b2 t.
Proof. intros H. unfold catalogue.target, dict_get. now rewrite H. Qed.

Lemma ray_same (b1 b2 : Board) (pc : Piece) (fuel : nat) (d : Z * Z) :
  squares b1 = squares b2 ->
  forall from, catalogue.ray b1 pc fuel from d = catalogue.ray b2 pc fuel from d.
Proof.
  intros H. induction fuel as [|fuel IH]; intros from; [reflexivity|].
  simpl. rewrite (target_same b1 b2 _ H).
  destruct (catalogue.target b2 (catalogue.shift from d)) as [[s [q|]]|];
    try reflexivity. now rewrite IH.
Qed.

Lemma catalogue_squares_only : squares_only catalogue.possible_moves.
Proof.
  intros b1 b2 H pc k. unfold catalogue.possible_moves.
  destruct (number_notation k) as [e|[from|]]; try reflexivity.
  destruct (is_in_bounds from); [|reflexivity].
  unfold catalogue.moves_from.
  destruct (kind pc).
  - unfold catalogue.pawn_moves. now rewrite !(target_same b1 b2 _ H).
  - apply flat_map_ext. intros d. unfold catalogue.step.
    now rewrite (target_same b1 b2 _ H).
  - apply flat_map_ext. intros d. now apply ray_same.
  - apply flat_map_ext. intros d. now apply ray_same.
  - apply flat_map_ext. intros d. now apply ray_same.
  - apply flat_map_ext. intros d. unfold catalogue.step.
    now rewrite (target_same b1 b2 _ H).
Qed.

(** X7: a successful [move] is a legal one.  The destination is one of the
    possible moves of the piece, and, for a catalogue that looks at the
    dictionary only, the side that moved is not in check on the board after
    the move. *)
Theorem move_leaves_mover_safe
  (pm : Board -> Piece -> key -> list string) (g g' : Game) (p1 p2 : string) :
  squares_only pm ->
  move pm p1 p2 g = (inr tt, g') ->
  exists pc,
    getitem (self g) (CStr (py.upper p1)) = inr (Some pc) /\
    In (py.upper p2) (pm (self g) pc (Some (py.upper p1))) /\
    is_in_check pm (self g') (color pc) = inr false.
Proof.
  intros Hpm H.
  destruct (move_success_parts pm g g' p1 p2 H)
    as (pc & dest & l & r & H1 & _ & _ & H4 & H5 & g1 & Hfin & _ & ->).
  rewrite finish_move_run in Hfin. injection Hfin as <-.
  destruct (legal_move_is_safe pm (self g) _ _ l H4 H5) as (Hsafe & pc' & Hpc' & Hin).
  simpl coord_of_key in Hpc'. rewrite H1 in Hpc'. injection Hpc' as <-.
  exists pc. split; [assumption|]. split; [assumption|].
  unfold is_in_check_after_move in Hsafe.
  rewrite (do_move_occupied (self g) p1 _ pc H1) in Hsafe.
  simpl coord_of_key in Hsafe. rewrite H1 in Hsafe. simpl in Hsafe.
  rewrite <- Hsafe. now apply is_in_check_same.
Qed.

Lemma move_leaves_mover_safe_witness :
  exists pc,
    getitem (self after_Nf3) (CStr (py.upper "E7")) = inr (Some pc) /\
    In (py.upper "E5")
       (catalogue.possible_moves (self after_Nf3) pc (Some (py.upper "E7"))) /\
    is_in_check catalogue.possible_moves (self (play "E7" "E5" after_Nf3)) (color pc)
    = inr false.
Proof.
  apply (move_leaves_mover_safe catalogue.possible_moves after_Nf3
           (play "E7" "E5" after_Nf3) "E7" "E5").
  - exact catalogue_squares_only.
  - vm_compute. reflexivity.
Defined.

(** X8: the check flag after a successful [move] tells the truth about the
    board it is stored on: for a catalogue that looks at the dictionary
    only, [in_check] names the side now to move exactly when [is_in_check]
    holds for that side, and is the empty flag otherwise. *)
Theorem move_sets_check_flag
  (pm : Board -> Piece -> key -> list string) (g g' : Game) (p1 p2 : string) :
  squares_only pm ->
  move pm p1 p2 g = (inr tt, g') ->
  exists side,
    player_turn (self g') = Some side /\
    ((is_in_check pm (self g') side = inr true /\
      in_check (self g') = (side, true)) \/
     (is_in_check pm (self g') side = inr false /\
      in_check (self g') = (EmptyString, false))).
Proof.
  intros Hpm H.
  destruct (move_success_parts pm g g' p1 p2 H)
    as (pc & dest & l & r & _ & _ & _ & _ & _ & g1 & Hfin & Hchk & ->).
  rewrite finish_move_run in Hfin. injection Hfin as <-.
  exists (get_enemy (color pc)). split; [reflexivity|].
  destruct r; [left|right]; (split; [|reflexivity]);
    rewrite <- Hchk; now apply is_in_check_same.
Qed.

Lemma move_sets_check_flag_witness :
  exists side,
    player_turn (self (play "D8" "H4" (play "G2" "G4" (play "E7" "E5"
                  (play "F2" "F3" (mkGame start_board [])))))) = Some side /\
    ((is_in_check catalogue.possible_moves
        (self (play "D8" "H4" (play "G2" "G4" (play "E7" "E5"
                 (play "F2" "F3" (mkGame start_board [])))))) side = inr true /\
      in_check (self (play "D8" "H4" (play "G2" "G4" (play "E7" "E5"
                  (play "F2" "F3" (mkGame start_board []))))))
      = (side, true)) \/
     (is_in_check catalogue.possible_moves
        (self (play "D8" "H4" (play "G2" "G4" (play "E7" "E5"
                 (play "F2" "F3" (mkGame start_board [])))))) side = inr false /\
      in_check (self (play "D8" "H4" (play "G2" "G4" (play "E7" "E5"
                  (play "F2" "F3" (mkGame start_board []))))))
      = (EmptyString, false))).
Proof.
  apply (move_sets_check_flag catalogue.possible_moves
           (play "G2" "G4" (play "E7" "E5" (play "F2" "F3" (mkGame start_board []))))
           _ "D8" "H4").
  - exact catalogue_squares_only.
  - vm_compute. reflexivity.
Defined.

(** X9: a successful [move] keeps the board well formed: when the
    destinations of the catalogue are squares and every key of the
    dictionary is a square holding a piece, the same is true afterwards. *)
Theorem move_keeps_board_well_formed
  (pm : Board -> Piece -> key -> list string) (g g' : Game) (p1 p2 : string) :
  in_bounds pm -> wf_squares (self g) ->
  move pm p1 p2 g = (inr tt, g') ->
  wf_squares (self g').
Proof.
  intros Hpm Hwf H.
  destruct (successful_move pm g g' p1 p2 Hpm Hwf H) as (pc & Hsq & Hp2 & _).
  unfold wf_squares. rewrite Hsq.
  apply map_Forall_insert_2; [assumption|]. now apply map_Forall_delete.
Qed.

Lemma move_keeps_board_well_formed_witness :
  wf_squares (self (play "E7" "E5" after_Nf3)).
Proof.
  apply (move_keeps_board_well_formed catalogue.possible_moves after_Nf3
           (play "E7" "E5" after_Nf3) "E7" "E5").
  - exact catalogue_in_bounds.
  - apply wf_squares_check. vm_compute. reflexivity.
  - vm_compute. reflexivity.
Defined.

(** ** How [move] refuses *)

(** X10: [move] with a piece of the side that is not to move raises
    [NotYourTurn] with the message that names the colour of the piece, and
    changes nothing. *)
Theorem move_out_of_turn
  (pm : Board -> Piece -> key -> list string) (g : Game) (p1 p2 : string)
  (pc : Piece) (dest : option Piece) :
  getitem (self g) (CStr (py.upper p1)) = inr (Some pc) ->
  getitem (self g) (CStr (py.upper p2)) = inr dest ->
  player_turn (self g) <> Some (color pc) ->
  move pm p1 p2 g = (inl (NotYourTurn ("Not " ++ color pc ++ "'s turn!")), g).
Proof.
  intros H1 H2 H3. unfold move, bind, call, gets, raise, ret.
  rewrite H1, H2. now rewrite bool_decide_eq_false_2.
Qed.

Lemma move_out_of_turn_witness :
  move catalogue.possible_moves "e2" "e4" after_Nf3
  = (inl (NotYourTurn ("Not " ++ color (mkPiece Pawn white) ++ "'s turn!")),
     after_Nf3).
Proof.
  apply (move_out_of_turn catalogue.possible_moves after_Nf3 "e2" "e4"
           (mkPiece Pawn white) None).
  - vm_compute. reflexivity.
  - vm_compute. reflexivity.
  - vm_compute. discriminate.
Defined.

(** X11: [move] to a destination that is not among the possible moves of
    the piece, or that leaves the mover's king attacked, raises
    [InvalidMove] and changes nothing. *)
Theorem move_to_illegal_destination
  (pm : Board -> Piece -> key -> list string) (g : Game) (p1 p2 : string)
  (pc : Piece) (dest : option Piece) (l : list (option string)) :
  getitem (self g) (CStr (py.upper p1)) = inr (Some pc) ->
  getitem (self g) (CStr (py.upper p2)) = inr dest ->
  player_turn (self g) = Some (color pc) ->
  all_legal_piece_moves pm (self g) (Some (py.upper p1)) = inr l ->
  ~ In (py.upper p2) (pm (self g) pc (Some (py.upper p1))) \/
  is_in_check_after_move pm (self g) (Some (py.upper p1)) (py.upper p2) = inr true ->
  move pm p1 p2 g = (inl InvalidMove, g).
Proof.
  intros H1 H2 H3 H4 H5. unfold move, bind, call, gets, raise, ret.
  rewrite H1, H2. cbv beta iota.
  rewrite bool_decide_eq_true_2 by assumption. cbv beta iota. cbn [negb].
  rewrite H4. cbv beta iota.
  rewrite bool_decide_eq_false_2; [reflexivity|].
  intros Hin. apply list_elem_of_In in Hin.
  destruct (legal_move_is_safe pm (self g) _ _ l H4 Hin) as (Hsafe & pc' & Hpc' & Hin').
  simpl coord_of_key in Hpc'. rewrite H1 in Hpc'. injection Hpc' as <-.
  destruct H5 as [H5|H5]; [contradiction|congruence].
Qed.

Lemma move_to_illegal_destination_witness :
  move catalogue.possible_moves "E2" "D2" (mkGame pinned_rook [])
  = (inl InvalidMove, mkGame pinned_rook []).
Proof.
  apply (move_to_illegal_destination catalogue.possible_moves (mkGame pinned_rook [])
           "E2" "D2" (mkPiece Rook white) None
           [None; None; None; None; None; None; None;
            Some "E3"; Some "E4"; Some "E5"; Some "E6"; Some "E7"; Some "E8"]).
  - vm_compute. reflexivity.
  - vm_compute. reflexivity.
  - vm_compute. reflexivity.
  - vm_compute. reflexivity.
  - right. vm_compute. reflexivity.
Defined.

(** ** Square names and coordinates *)

Lemma letter_notation_named (r c : Z) :
  (0 <= r <= 7)%Z -> (0 <= c <= 7)%Z ->
  exists s, letter_notation (r, c) = inr (Some s) /\
            is_square s = true /\
            number_notation (Some s) = inr (Some (r, c)).
Proof.
  intros Hr' Hc'.
  assert (Hc : (c = 0 \/ c = 1 \/ c = 2 \/ c = 3 \/ c = 4 \/ c = 5 \/ c = 6 \/ c = 7)%Z)
    by lia.
  assert (Hr : (r = 0 \/ r = 1 \/ r = 2 \/ r = 3 \/ r = 4 \/ r = 5 \/ r = 6 \/ r = 7)%Z)
    by lia.
  clear Hr' Hc'.
  repeat destruct Hc as [->|Hc]; try subst c;
    repeat destruct Hr as [->|Hr]; try subst r;
    eexists; (split; [vm_compute; reflexivity|]); split; vm_compute; reflexivity.
Qed.

(** X12: [letter_notation] followed by [number_notation].  A pair out of
    bounds has no name ([None], and never [InvalidCoord]); a pair in bounds
    is named by one of the sixty-four squares, and [number_notation] gives
    the pair back. *)
Theorem letter_then_number (t : Z * Z) :
  (is_in_bounds t = false -> letter_notation t = inr None) /\
  (is_in_bounds t = true ->
   exists s, letter_notation t = inr (Some s) /\
             is_square s = true /\
             number_notation (Some s) = inr (Some t)).
Proof.
  split.
  - intros H. unfold letter_notation. now rewrite H.
  - destruct t as [r c]. unfold is_in_bounds. simpl.
    destruct (c <? 0)%Z eqn:E1; [discriminate|].
    destruct (c >? 7)%Z eqn:E2; [discriminate|].
    destruct (r <? 0)%Z eqn:E3; [discriminate|].
    destruct (r >? 7)%Z eqn:E4; [discriminate|]. intros _.
    apply letter_notation_named; lia.
Qed.

(** X13: [number_notation] followed by [letter_notation].  The name of a
    square is turned into a pair in bounds, and [letter_notation] gives the
    name back. *)
Theorem number_then_letter (s : string) :
  is_square s = true ->
  exists t, number_notation (Some s) = inr (Some t) /\
            is_in_bounds t = true /\
            letter_notation t = inr (Some s).
Proof.
  intros H. destruct (is_square_chars s H) as (a & d & -> & Ha & Hd).
  apply is_file_cases in Ha. apply is_rank_digit_cases in Hd.
  simpl in Ha, Hd.
  repeat destruct Ha as [<-|Ha]; try destruct Ha;
    repeat destruct Hd as [<-|Hd]; try destruct Hd;
    eexists; (split; [vm_compute; reflexivity|]); split; vm_compute; reflexivity.
Qed.

Lemma number_then_letter_witness :
  exists t, number_notation (Some "E4") = inr (Some t) /\
            is_in_bounds t = true /\
            letter_notation t = inr (Some "E4").
Proof. apply (number_then_letter "E4"). reflexivity. Defined.

(** X14: looking a string up on a well-formed board.  The only exception
    is [KeyError], raised exactly for a string that, in uppercase, is not a
    letter A-Z followed by a digit 1-8; a name that passes and is none of
    the sixty-four squares gives [None]; a piece is found only under a
    square, whatever the case of the letter. *)
Theorem lookup_by_name (b : Board) (s : string) :
  wf_squares b ->
  match getitem b (CStr s) with
  | inl e => e = KeyError /\ RANK_REGEX (py.upper s) = false
  | inr None => RANK_REGEX (py.upper s) = true
  | inr (Some pc) =>
      is_square (py.upper s) = true /\
      squares b !! Some (py.upper s) = Some (Some pc)
  end.
Proof.
  intros Hwf. unfold getitem. rewrite upper_idem.
  destruct (RANK_REGEX (py.upper s)) eqn:E; simpl; [|now split].
  unfold dict_get. destruct (squares b !! Some (py.upper s)) as [v|] eqn:Ev;
    [|reflexivity].
  destruct (wf_squares_lookup b _ _ Hwf Ev) as (s' & pc & [= <-] & -> & Hs).
  now split.
Qed.

Lemma lookup_by_name_witness :
  match getitem start_board (CStr "z5") with
  | inl e => e = KeyError /\ RANK_REGEX (py.upper "z5") = false
  | inr None => RANK_REGEX (py.upper "z5") = true
  | inr (Some pc) =>
      is_square (py.upper "z5") = true /\
      squares start_board !! Some (py.upper "z5") = Some (Some pc)
  end.
Proof.
  apply (lookup_by_name start_board "z5").
  apply wf_squares_check. vm_compute. reflexivity.
Defined.

(** ** Queries over the whole board *)

Lemma occupied_loop_spec (b : Board) (c : string) (ks : list key) :
  wf_squares b ->
  Forall (fun k => is_Some (squares b !! k)) ks ->
  forall acc, exists l,
    occupied_loop b c acc ks = inr l /\
    forall k, In k l <->
              In k acc \/
              (In k ks /\ exists pc, squares b !! k = Some (Some pc) /\ color pc = c).
Proof.
  intros Hwf. induction 1 as [|k0 ks [v Hv] _ IH]; intros acc.
  - exists acc. split; [reflexivity|]. intros k. simpl. tauto.
  - simpl. destruct (wf_squares_lookup b k0 v Hwf Hv) as (s & pc & -> & -> & Hs).
    simpl coord_of_key. rewrite (getitem_square b s Hs).
    unfold dict_get. rewrite Hv. simpl.
    destruct (String.eqb_spec (color pc) c) as [Hc|Hc].
    + destruct (IH (acc ++ [Some s])%list) as (l & -> & Hl). exists l.
      split; [reflexivity|]. intros k. rewrite Hl, in_app_iff. simpl. split.
      * intros [[H|[<-|[]]]|(H & Hk)]; eauto 6.
      * intros [H|([<-|H] & Hk)]; eauto 6.
    + destruct (IH acc) as (l & -> & Hl). exists l.
      split; [reflexivity|]. intros k. rewrite Hl. split.
      * intros [H|(H & Hk)]; eauto 6.
      * intros [H|([<-|H] & pc' & Hk & Hc')]; eauto 6.
        rewrite Hv in Hk. injection Hk as <-. contradiction.
Qed.

(** X15: [occupied] on a well-formed board returns, for a valid colour,
    exactly the keys that hold a piece of that colour; for any other
    colour it raises [InvalidColor]. *)
Theorem occupied_lists_the_colour (b : Board) (c : string) :
  wf_squares b ->
  (valid_color c = false -> occupied b c = inl InvalidColor) /\
  (valid_color c = true ->
   exists l, occupied b c = inr l /\
             forall k, In k l <->
                       exists pc, squares b !! k = Some (Some pc) /\ color pc = c).
Proof.
  intros Hwf. unfold occupied. split; intros Hc; rewrite Hc; [reflexivity|]. simpl.
  destruct (occupied_loop_spec b c (keys b) Hwf) with (acc := @nil (option string))
    as (l & El & Hl).
  { apply List.Forall_forall. intros k. apply keys_elem. }
  exists l. split; [assumption|]. intros k. rewrite Hl. simpl. split.
  - intros [[]|(_ & H)]. exact H.
  - intros (pc & Hk & Hpc). right. split; [|eauto].
    apply keys_elem. eauto.
Qed.

Lemma occupied_lists_the_colour_witness :
  (valid_color "white" = false -> occupied pinned_rook "white" = inl InvalidColor) /\
  (valid_color "white" = true ->
   exists l, occupied pinned_rook "white" = inr l /\
             forall k, In k l <->
                       exists pc, squares pinned_rook !! k = Some (Some pc) /\
                                  color pc = "white").
Proof.
  apply (occupied_lists_the_colour pinned_rook "white").
  apply wf_squares_check. vm_compute. reflexivity.
Defined.

Lemma all_possible_moves_loop_spec
  (pm : Board -> Piece -> key -> list string) (b : Board) (c : string)
  (ks : list key) :
  wf_squares b ->
  Forall (fun k => is_Some (squares b !! k)) ks ->
  forall acc, exists l,
    all_possible_moves_loop pm b c acc ks = inr l /\
    forall d, In d l <->
              In d acc \/
              exists s pc, In (Some s) ks /\ squares b !! Some s = Some (Some pc) /\
                           color pc = c /\ In d (pm b pc (Some s)).
Proof.
  intros Hwf. induction 1 as [|k0 ks [v Hv] _ IH]; intros acc.
  - exists acc. split; [reflexivity|]. intros d. simpl. split; [tauto|].
    intros [H|(s & pc & [] & _)]. exact H.
  - simpl. destruct (wf_squares_lookup b k0 v Hwf Hv) as (s & pc & -> & -> & Hs).
    simpl coord_of_key. rewrite (getitem_square b s Hs).
    unfold dict_get. rewrite Hv. simpl.
    assert (Hskip : forall acc', (forall d, In d acc' <-> In d acc \/
                       (color pc = c /\ In d (pm b pc (Some s)))) ->
              exists l, all_possible_moves_loop pm b c acc' ks = inr l /\
                forall d, In d l <->
                  In d acc \/
                  exists s' pc', (Some s = Some s' \/ In (Some s') ks) /\
                    squares b !! Some s' = Some (Some pc') /\
                    color pc' = c /\ In d (pm b pc' (Some s'))).
    { intros acc' Hacc'. destruct (IH acc') as (l & -> & Hl). exists l.
      split; [reflexivity|]. intros d. rewrite Hl, Hacc'. split.
      - intros [[H|(Hc & Hd)]|(s' & pc' & H1 & H2 & H3 & H4)].
        + now left.
        + right. exists s, pc. tauto.
        + right. exists s', pc'. tauto.
      - intros [H|(s' & pc' & [[= <-]|H1] & H2 & H3 & H4)].
        + now left; left.
        + rewrite Hv in H2. injection H2 as <-. left. right. tauto.
        + right. exists s', pc'. tauto. }
    destruct (String.eqb_spec (color pc) c) as [Hc|Hc].
    + destruct (pm b pc (Some s)) as [|m ms] eqn:Epm.
      * apply Hskip. intros d. simpl. tauto.
      * apply Hskip. intros d. rewrite in_app_iff. tauto.
    + apply Hskip. intros d. tauto.
Qed.

(** X16: [all_possible_moves] on a well-formed board returns, for a valid
    colour, exactly the destinations that the catalogue gives for the
    pieces of that colour, each from the square it stands on. *)
Theorem all_possible_moves_collects
  (pm : Board -> Piece -> key -> list string) (b : Board) (c : string) :
  wf_squares b -> valid_color c = true ->
  exists l,
    all_possible_moves pm b c = inr l /\
    forall d, In d l <->
              exists s pc, squares b !! Some s = Some (Some pc) /\
                           color pc = c /\ In d (pm b pc (Some s)).
Proof.
  intros Hwf Hc. unfold all_possible_moves. rewrite Hc. simpl.
  destruct (all_possible_moves_loop_spec pm b c (keys b) Hwf) with (acc := @nil string)
    as (l & El & Hl).
  { apply List.Forall_forall. intros k. apply keys_elem. }
  exists l. split; [assumption|]. intros d. rewrite Hl. simpl. split.
  - intros [[]|(s & pc & _ & H)]. eauto.
  - intros (s & pc & H1 & H2 & H3). right. exists s, pc.
    split; [apply keys_elem; eauto|]. now repeat split.
Qed.

Lemma all_possible_moves_collects_witness :
  exists l,
    all_possible_moves catalogue.possible_moves pinned_rook "black" = inr l /\
    forall d, In d l <->
              exists s pc, squares pinned_rook !! Some s = Some (Some pc) /\
                           color pc = "black" /\
                           In d (catalogue.possible_moves pinned_rook pc (Some s)).
Proof.
  apply (all_possible_moves_collects catalogue.possible_moves pinned_rook "black").
  - apply wf_squares_check. vm_compute. reflexivity.
  - reflexivity.
Defined.

(** ** Check *)

Lemma color_side (pc pc' : Piece) : color pc = color pc' -> side pc = side pc'.
Proof.
  destruct pc as [k []], pc' as [k' []]; simpl; intros H;
    first [reflexivity | discriminate H].
Qed.

Lemma king_loop_finds (b : Board) (c : string) (ks : list key) :
  wf_squares b ->
  Forall (fun k => is_Some (squares b !! k)) ks ->
  (exists k pc, In k ks /\ squares b !! k = Some (Some pc) /\
                kind pc = King /\ color pc = c) ->
  exists pos pc,
    get_king_position_loop b c ks = inr pos /\
    squares b !! pos = Some (Some pc) /\ kind pc = King /\ color pc = c.
Proof.
  intros Hwf. induction 1 as [|k0 ks [v Hv] _ IH]; intros (k & pc & Hin & Hk & Hkind & Hc).
  - destruct Hin.
  - simpl. destruct (wf_squares_lookup b k0 v Hwf Hv) as (s0 & pc0 & -> & -> & Hs).
    simpl coord_of_key. rewrite (getitem_square b s0 Hs).
    unfold dict_get. rewrite Hv. simpl.
    assert (Hrest : bool_decide (kind pc0 = King) && String.eqb (color pc0) c = false ->
                    exists pos pc', get_king_position_loop b c ks = inr pos /\
                      squares b !! pos = Some (Some pc') /\ kind pc' = King /\
                      color pc' = c).
    { intros Hno. apply IH. destruct Hin as [<-|Hin]; [|eauto 6].
      rewrite Hv in Hk. injection Hk as <-.
      rewrite bool_decide_eq_true_2 in Hno by assumption.
      rewrite Hc, String.eqb_refl in Hno. discriminate. }
    destruct (bool_decide_reflect (kind pc0 = King)) as [Hk0|_]; [|now apply Hrest].
    simpl. destruct (String.eqb_spec (color pc0) c) as [Hc0|_]; [|now apply Hrest].
    exists (Some s0), pc0. now repeat split.
Qed.

(** X17: what [is_in_check] answers.  On a well-formed board on which the
    king of a colour stands on exactly one square, [is_in_check] for that
    colour is [True] exactly when that square is among the possible moves
    of the other side. *)
Theorem is_in_check_means_king_attacked
  (pm : Board -> Piece -> key -> list string) (b : Board) (sd : Color)
  (ks : string) :
  in_bounds pm -> wf_squares b ->
  squares b !! Some ks = Some (Some (mkPiece King sd)) ->
  (forall k, squares b !! k = Some (Some (mkPiece King sd)) -> k = Some ks) ->
  exists moves r,
    all_possible_moves pm b (get_enemy (color (mkPiece King sd))) = inr moves /\
    is_in_check pm b (color (mkPiece King sd)) = inr r /\
    (r = true <-> In ks moves).
Proof.
  intros Hpm Hwf Hking Honly. set (c := color (mkPiece King sd)).
  pose proof (wf_squares_keys_pass b Hwf) as Hks.
  assert (Hall : Forall (fun k => is_Some (squares b !! k)) (keys b))
    by (apply List.Forall_forall; intros k; apply keys_elem).
  destruct (king_loop_finds b c (keys b) Hwf Hall)
    as (pos & pc & Epos & Hpos & Hkind & Hcol).
  { exists (Some ks), (mkPiece King sd). repeat split; try assumption.
    apply keys_elem. eauto. }
  assert (pc = mkPiece King sd) as ->.
  { destruct pc as [k s]. simpl in Hkind. subst k. f_equal.
    exact (color_side (mkPiece King s) (mkPiece King sd) Hcol). }
  apply Honly in Hpos. subst pos.
  destruct (wf_squares_lookup b _ _ Hwf Hking) as (s' & pc' & [= <-] & _ & Hsq).
  unfold is_in_check, get_king, get_king_position, all_possible_moves.
  assert (Hvc : valid_color c = true) by apply color_valid.
  rewrite Hvc, Epos, get_enemy_valid. cbn [negb rbind coord_of_key].
  rewrite (getitem_square b ks Hsq). unfold dict_get at 1. rewrite Hking.
  cbn [negb rbind].
  destruct (all_possible_moves_loop_total pm b (get_enemy c) (keys b) Hks [])
    as [l El].
  rewrite El. cbn [rbind]. exists l. eexists. split; [reflexivity|].
  assert (Hl : Forall (fun d => is_square d = true) l)
    by (eapply all_possible_moves_loop_squares; eauto).
  rewrite (rmap_inr _ (fun m => dict_get b (Some m)))
    by (intros m Hm; apply getitem_square; rewrite List.Forall_forall in Hl;
        now apply Hl).
  cbn [rbind]. split; [reflexivity|]. unfold py_in. rewrite existsb_map_comp, existsb_exists.
  split.
  - intros (m & Hm & Heq). apply bool_decide_eq_true in Heq.
    unfold dict_get in Heq. destruct (squares b !! Some m) as [v|] eqn:Ev;
      [|discriminate].
    subst v. apply Honly in Ev. now injection Ev as <-.
  - intros Hin. exists ks. split; [assumption|]. apply bool_decide_eq_true_2.
    unfold dict_get. now rewrite Hking.
Qed.

Lemma only_key_check (b : Board) (pc : Piece) (ks : string) :
  forallb (fun kv => negb (bool_decide (snd kv = Some pc)) ||
                     bool_decide (fst kv = Some ks))
          (map_to_list (squares b)) = true ->
  forall k, squares b !! k = Some (Some pc) -> k = Some ks.
Proof.
  intros H k Hk. rewrite forallb_forall in H.
  specialize (H (k, Some pc)). simpl in H.
  rewrite bool_decide_eq_true_2 in H by reflexivity. simpl in H.
  eapply bool_decide_eq_true_1. apply H. now apply list_elem_of_In, elem_of_map_to_list.
Qed.

Lemma is_in_check_means_king_attacked_witness :
  exists moves r,
    all_possible_moves catalogue.possible_moves (self fools_mate)
      (get_enemy (color (mkPiece King white))) = inr moves /\
    is_in_check catalogue.possible_moves (self fools_mate)
      (color (mkPiece King white)) = inr r /\
    (r = true <-> In "E1" moves).
Proof.
  apply (is_in_check_means_king_attacked catalogue.possible_moves
           (self fools_mate) white "E1").
  - exact catalogue_in_bounds.
  - apply wf_squares_check. vm_compute. reflexivity.
  - vm_compute. reflexivity.
  - apply only_key_check. vm_compute. reflexivity.
Defined.

(** X18: when [is_in_check] answers.  For a colour other than the two it
    raises [InvalidColor] on any board; for a valid colour on a well-formed
    board, the destinations of the catalogue being squares, it returns a
    boolean and raises nothing. *)
Theorem is_in_check_answers
  (pm : Board -> Piece -> key -> list string) (b : Board) (c : string) :
  in_bounds pm -> wf_squares b ->
  (valid_color c = false -> is_in_check pm b c = inl InvalidColor) /\
  (valid_color c = true -> exists r, is_in_check pm b c = inr r).
Proof.
  intros Hpm Hwf. split; intros Hc.
  - unfold is_in_check. now rewrite Hc.
  - apply is_in_check_total; [assumption..|]. now apply wf_squares_keys_pass.
Qed.

Lemma is_in_check_answers_witness :
  (valid_color "green" = false ->
   is_in_check catalogue.possible_moves pinned_rook "green" = inl InvalidColor) /\
  (valid_color "green" = true ->
   exists r, is_in_check catalogue.possible_moves pinned_rook "green" = inr r).
Proof.
  apply (is_in_check_answers catalogue.possible_moves pinned_rook "green").
  - exact catalogue_in_bounds.
  - apply wf_squares_check. vm_compute. reflexivity.
Defined.

(** ** What [load] leaves behind *)

Lemma same_attributes_refl (b : Board) : same_attributes b b.
Proof. now repeat split. Qed.

Lemma same_attributes_trans (b1 b2 b3 : Board) :
  same_attributes b1 b2 -> same_attributes b2 b3 -> same_attributes b1 b3.
Proof.
  intros (A1 & A2 & A3 & A4 & A5 & A6 & A7) (B1 & B2 & B3 & B4 & B5 & B6 & B7).
  repeat split; congruence.
Qed.

Lemma same_attributes_set_squares
  (f : gmap (option string) (option Piece) -> gmap (option string) (option Piece))
  (b : Board) : same_attributes b (set_squares f b).
Proof. now repeat split. Qed.

Lemma load_keeps_refl (b : Board) : load_keeps b b.
Proof. split; [apply same_attributes_refl|tauto]. Qed.

Lemma load_keeps_trans (b1 b2 b3 : Board) :
  load_keeps b1 b2 -> load_keeps b2 b3 -> load_keeps b1 b3.
Proof.
  intros [A1 A2] [B1 B2]. split; [now apply (same_attributes_trans b1 b2)|tauto].
Qed.

Lemma forM_keeps {A : Type} (f : A -> M Board unit) :
  (forall a b, load_keeps b (snd (f a b))) ->
  forall l b, load_keeps b (snd (forM_ f l b)).
Proof.
  intros Hf l. induction l as [|a l IH]; intros b; [apply load_keeps_refl|].
  simpl. unfold bind. specialize (Hf a b).
  destruct (f a b) as [[e|u] b1]; [exact Hf|].
  apply (load_keeps_trans b b1); [exact Hf|apply IH].
Qed.

Lemma load_square_keeps (x : Z) (cell : Z * ascii) (b : Board) :
  load_keeps b (snd (load_square x cell b)).
Proof.
  destruct cell as [y letter]. unfold load_square.
  destruct (Ascii.eqb letter " "); [apply load_keeps_refl|].
  unfold bind, lift, modify, call.
  destruct (letter_notation (7 - x, y)) as [e|k] eqn:Ek; [apply load_keeps_refl|].
  destruct (piece letter) as [e|pc]; [apply load_keeps_refl|].
  assert (H : load_keeps b (set_squares (insert k (Some pc)) b)).
  { split; [apply same_attributes_set_squares|].
    intros Hm. cbn [squares set_squares]. apply map_Forall_insert_2; [|exact Hm].
    destruct k as [s|]; [|reflexivity]. simpl.
    now apply letter_notation_square in Ek. }
  destruct (getitem (set_squares (insert k (Some pc)) b) (coord_of_key k))
    as [e|placed]; [exact H|].
  now destruct placed.
Qed.

Lemma load_row_keeps (line : Z * string) (b : Board) :
  load_keeps b (snd (load_row line b)).
Proof.
  destruct line as [x row]. unfold load_row. apply forM_keeps.
  intros cell b1. apply load_square_keeps.
Qed.

Lemma split_head (sep : ascii) (s : string) :
  exists f fs, py.split sep s = f :: fs.
Proof.
  induction s as [|c s (f & fs & IH)]; simpl; [eauto|].
  destruct (Ascii.eqb c sep); [eauto|]. rewrite IH. eauto.
Qed.

Lemma split_fields_lack (sep : ascii) (s : string) :
  Forall (fun f => lacks sep f = true) (py.split sep s).
Proof.
  unfold lacks. induction s as [|c s IH]; simpl; [now repeat constructor|].
  destruct (Ascii.eqb c sep) eqn:E; [now constructor|].
  destruct (py.split sep s) as [|f fs]; [now repeat constructor; simpl; rewrite E|].
  inversion IH as [|? ? Hf Hfs]; subst. constructor; [|assumption].
  simpl. now rewrite E, Hf.
Qed.

(** The dictionary after [load], whatever its outcome, is the one that the
    loop over the rows leaves. *)
Lemma load_rows_state (fen : string) (b0 : Board) :
  exists f0 fs,
    py.split " " fen = f0 :: fs /\
    squares (snd (load fen b0))
    = squares (snd (forM_ load_row (enumerate (py.split "/" (py.sub_digits f0)))
                          (set_squares (fun _ => ∅) b0))).
Proof.
  destruct (split_head " " fen) as (f0 & fs & E). exists f0, fs.
  split; [assumption|]. unfold load, bind, modify, lift. rewrite E.
  unfold py.index. cbn [nth_error].
  destruct (forM_ load_row _ _) as [[e|u] b1]; [reflexivity|].
  destruct fs as [|f1 fs]; [reflexivity|]. cbn [nth_error].
  destruct fs as [|f2 fs]; [now destruct (String.eqb f1 "w")|]. cbn [nth_error].
  destruct fs as [|f3 fs]; [now destruct (String.eqb f1 "w")|]. cbn [nth_error].
  destruct fs as [|f4 fs]; [now destruct (String.eqb f1 "w")|]. cbn [nth_error].
  destruct (py.int f4) as [e|n4]; [now destruct (String.eqb f1 "w")|].
  destruct fs as [|f5 fs]; [now destruct (String.eqb f1 "w")|]. cbn [nth_error].
  destruct (py.int f5) as [e|n5]; now destruct (String.eqb f1 "w").
Qed.

Lemma load_entries (fen : string) (b0 : Board) :
  map_Forall (fun k v => loaded_entry k v = true) (squares (snd (load fen b0))).
Proof.
  destruct (load_rows_state fen b0) as (f0 & fs & _ & ->).
  apply (forM_keeps load_row load_row_keeps). cbn [squares set_squares].
  apply map_Forall_empty.
Qed.

(** What a successful [load] has read. *)
Lemma load_success (fen : string) (b0 b : Board) :
  load fen b0 = (inr tt, b) ->
  exists f0 f1 f2 f3 f4 f5 rest,
    py.split " " fen = f0 :: f1 :: f2 :: f3 :: f4 :: f5 :: rest /\
    player_turn b = Some (if String.eqb f1 "w" then "white" else "black") /\
    castling b = f2 /\ en_passant b = f3 /\
    py.int f4 = inr (halfmove_clock b) /\
    py.int f5 = inr (fullmove_number b) /\
    in_check b = in_check b0 /\ in_mate b = in_mate b0.
Proof.
  destruct (split_head " " fen) as (f0 & fs & E).
  unfold load, bind, modify, lift. rewrite E. unfold py.index. cbn [nth_error].
  pose proof (forM_keeps load_row load_row_keeps
                (enumerate (py.split "/" (py.sub_digits f0)))
                (set_squares (fun _ => ∅) b0)) as [Hk _].
  destruct (forM_ load_row _ _) as [[e|u] b1]; [discriminate|].
  cbn [snd] in Hk. destruct Hk as (_ & _ & _ & _ & _ & K6 & K7).
  cbn [in_check in_mate set_squares] in K6, K7.
  destruct fs as [|f1 fs]; [discriminate|]. cbn [nth_error].
  destruct fs as [|f2 fs]; [now destruct (String.eqb f1 "w")|]. cbn [nth_error].
  destruct fs as [|f3 fs]; [now destruct (String.eqb f1 "w")|]. cbn [nth_error].
  destruct fs as [|f4 fs]; [now destruct (String.eqb f1 "w")|]. cbn [nth_error].
  destruct (py.int f4) as [e|n4] eqn:E4; [now destruct (String.eqb f1 "w")|].
  destruct fs as [|f5 fs]; [now destruct (String.eqb f1 "w")|]. cbn [nth_error].
  destruct (py.int f5) as [e|n5] eqn:E5; [now destruct (String.eqb f1 "w")|].
  intros H. exists f0, f1, f2, f3, f4, f5, fs. split; [reflexivity|].
  destruct (String.eqb f1 "w"); injection H as <-; now repeat split.
Qed.

(** X19: what [load] reads.  When [load] returns, the string had at least
    six fields between single spaces; the side to move is white when the
    second field is [w] and black for anything else; castling and en passant
    are the third and fourth field as written; the two counters are the
    integers of the fifth and sixth; the check and mate flags are left as
    they were. *)
Theorem load_reads_the_fields (fen : string) (b0 b : Board) :
  load fen b0 = (inr tt, b) ->
  exists f0 f1 f2 f3 f4 f5 rest,
    py.split " " fen = f0 :: f1 :: f2 :: f3 :: f4 :: f5 :: rest /\
    player_turn b = Some (if String.eqb f1 "w" then "white" else "black") /\
    castling b = f2 /\ en_passant b = f3 /\
    py.int f4 = inr (halfmove_clock b) /\
    py.int f5 = inr (fullmove_number b) /\
    in_check b = in_check b0 /\ in_mate b = in_mate b0.
Proof. apply load_success. Qed.

Lemma load_reads_the_fields_witness :
  exists f0 f1 f2 f3 f4 f5 rest,
    py.split " " "4k3/8/8/8/8/8/8/4K3 x Kq e3 +7 12 tail"
    = f0 :: f1 :: f2 :: f3 :: f4 :: f5 :: rest /\
    player_turn (snd (load "4k3/8/8/8/8/8/8/4K3 x Kq e3 +7 12 tail" class_defaults))
    = Some (if String.eqb f1 "w" then "white" else "black") /\
    castling (snd (load "4k3/8/8/8/8/8/8/4K3 x Kq e3 +7 12 tail" class_defaults)) = f2 /\
    en_passant (snd (load "4k3/8/8/8/8/8/8/4K3 x Kq e3 +7 12 tail" class_defaults)) = f3 /\
    py.int f4
    = inr (halfmove_clock
             (snd (load "4k3/8/8/8/8/8/8/4K3 x Kq e3 +7 12 tail" class_defaults))) /\
    py.int f5
    = inr (fullmove_number
             (snd (load "4k3/8/8/8/8/8/8/4K3 x Kq e3 +7 12 tail" class_defaults))) /\
    in_check (snd (load "4k3/8/8/8/8/8/8/4K3 x Kq e3 +7 12 tail" class_defaults))
    = in_check class_defaults /\
    in_mate (snd (load "4k3/8/8/8/8/8/8/4K3 x Kq e3 +7 12 tail" class_defaults))
    = in_mate class_defaults.
Proof.
  apply (load_reads_the_fields "4k3/8/8/8/8/8/8/4K3 x Kq e3 +7 12 tail"
           class_defaults).
  vm_compute. reflexivity.
Defined.

(** X20: what [load] stores.  Whatever the string and whether [load]
    returns or raises, every entry of the dictionary afterwards holds a
    piece, never [None], under the name of a square or, for a cell beyond
    the eighth file or rank, under the key [None]. *)
Theorem load_stores_pieces_only (fen : string) (b0 : Board) :
  map_Forall (fun k v => loaded_entry k v = true) (squares (snd (load fen b0))).
Proof. apply load_entries. Qed.

(** ** Boards that were loaded *)

Lemma new_Board_loaded (fen : option string) (b : Board) :
  new_Board fen = inr b -> exists s, load s class_defaults = (inr tt, b).
Proof.
  unfold new_Board, init. destruct fen as [s|].
  - destruct (load s class_defaults) as [[e|[]] b1] eqn:E; [discriminate|].
    intros [= <-]. eauto.
  - destruct (load FEN_STARTING class_defaults) as [[e|[]] b1] eqn:E; [discriminate|].
    intros [= <-]. eauto.
Qed.

Lemma loaded_attributes (s : string) (b0 b : Board) :
  load s b0 = (inr tt, b) ->
  (player_turn b = Some "white" \/ player_turn b = Some "black") /\
  no_space (castling b) = true /\ no_space (en_passant b) = true.
Proof.
  intros H.
  destruct (load_success s b0 b H)
    as (f0 & f1 & f2 & f3 & f4 & f5 & rest & E & Ht & <- & <- & _).
  pose proof (split_fields_lack " " s) as Hl. rewrite E in Hl.
  inversion Hl as [|? ? _ Hl1]; subst. inversion Hl1 as [|? ? _ Hl2]; subst.
  inversion Hl2 as [|? ? H2 Hl3]; subst. inversion Hl3 as [|? ? H3 _]; subst.
  repeat split; try assumption.
  rewrite Ht. destruct (String.eqb f1 "w"); [now left|now right].
Qed.

Lemma loaded_wf (b : Board) :
  map_Forall (fun k v => loaded_entry k v = true) (squares b) ->
  squares b !! None = None -> wf_squares b.
Proof.
  intros Hent Hnone k v Hkv. specialize (Hent k v Hkv). simpl in Hent.
  destruct k as [s|]; [|congruence]. now destruct v.
Qed.

Lemma all_squares_named (k : key) :
  In k all_squares -> exists s, k = Some s /\ is_square s = true.
Proof.
  assert (H : forallb (fun k : key => match k with
                                      | Some s => is_square s
                                      | None => false
                                      end) all_squares = true)
    by (vm_compute; reflexivity).
  rewrite forallb_forall in H. intros Hin. specialize (H k Hin).
  destruct k as [s|]; [eauto|discriminate].
Qed.

Lemma refill_loaded (b : Board) :
  map_Forall (fun k v => loaded_entry k v = true) (squares b) ->
  refill b all_squares ∅ = delete None (squares b).
Proof.
  intros Hent. apply map_eq. intros k.
  destruct (in_dec (fun x y : option string => decide (x = y)) k all_squares)
    as [Hin|Hout].
  - rewrite (refill_inside b all_squares k Hin).
    destruct (all_squares_named k Hin) as (s & -> & _).
    rewrite lookup_delete_ne by discriminate. unfold dict_get.
    destruct (squares b !! Some s) as [v|] eqn:E; [|reflexivity].
    specialize (Hent _ _ E). simpl in Hent. now destruct v.
  - rewrite (refill_outside b all_squares k Hout), lookup_empty.
    destruct k as [s|]; [|now rewrite lookup_delete_eq].
    rewrite lookup_delete_ne by discriminate.
    destruct (squares b !! Some s) as [v|] eqn:E; [|reflexivity].
    specialize (Hent _ _ E). simpl in Hent. destruct v; [|discriminate].
    exfalso. apply Hout. now apply is_square_listed.
Qed.

Lemma loaded_round_trip (b b0 : Board) :
  map_Forall (fun k v => loaded_entry k v = true) (squares b) ->
  (player_turn b = Some "white" \/ player_turn b = Some "black") ->
  no_space (castling b) = true -> no_space (en_passant b) = true ->
  exists fen,
    export b = inr fen /\
    load fen b0
    = (inr tt, mkBoard (delete None (squares b)) (player_turn b) (castling b)
                       (en_passant b) (halfmove_clock b) (fullmove_number b)
                       (in_check b0) (in_mate b0)).
Proof.
  intros Hent Hturn Hca Hep.
  set (enc := replace_spaces (py.join "/" (map row_string (grid b)))).
  assert (Ht : exists t, turn_letter (player_turn b) = inr t /\ no_space t = true /\
                         Some (if String.eqb t "w" then "white" else "black")
                         = player_turn b).
  { destruct Hturn as [-> | ->]; [exists "w"|exists "b"]; repeat split. }
  destruct Ht as (t & Et & Hts & Hback).
  exists (enc ++ " " ++ py.join " " [t; castling b; en_passant b;
                                     py.str (halfmove_clock b);
                                     py.str (fullmove_number b)]).
  split; [rewrite export_run, Et; reflexivity|].
  rewrite (load_fields _ enc t (castling b) (en_passant b)
             (halfmove_clock b) (fullmove_number b) (grid b)).
  - now rewrite fill_rows_grid, (refill_loaded b Hent), Hback.
  - apply export_fields_split; try assumption;
      [apply replace_spaces_no_space|apply str_no_space..].
  - apply placement_round_trip.
Qed.

(** X21: a board that was built is well formed.  When [Board(fen)] returns
    and nothing was stored under [None], the keys of the dictionary are
    squares and its values pieces, the side to move is white or black, and
    the castling and en-passant fields hold no space. *)
Theorem built_board_is_canonical (fen : option string) (b : Board) :
  new_Board fen = inr b -> squares b !! None = None -> canonical b.
Proof.
  intros Hb Hnone. destruct (new_Board_loaded fen b Hb) as [s Hs].
  destruct (loaded_attributes s _ b Hs) as (Ht & Hca & Hep).
  repeat split; try assumption. apply loaded_wf; [|assumption].
  pose proof (load_entries s class_defaults) as H. now rewrite Hs in H.
Qed.

Lemma built_board_is_canonical_witness : canonical pinned_rook.
Proof.
  apply (built_board_is_canonical (Some "4r2k/8/8/8/8/8/4R3/4K3 w - - 0 1")).
  - vm_compute. reflexivity.
  - vm_compute. reflexivity.
Defined.

(** X22: export, then load, of a board that was built.  [export] returns a
    string for every board that [Board(fen)] built, and [Board] of that
    string is the same board without the entry under [None]: the same
    dictionary otherwise, the same side to move, castling, en passant,
    counters and flags. *)
Theorem built_board_round_trip (fen : option string) (b : Board) :
  new_Board fen = inr b ->
  exists fen', export b = inr fen' /\
               new_Board (Some fen') = inr (set_squares (delete None) b).
Proof.
  intros Hb. destruct (new_Board_loaded fen b Hb) as [s Hs].
  destruct (loaded_attributes s _ b Hs) as (Ht & Hca & Hep).
  pose proof (load_entries s class_defaults) as Hent. rewrite Hs in Hent.
  cbn [snd] in Hent.
  destruct (load_success s _ b Hs)
    as (_ & _ & _ & _ & _ & _ & _ & _ & _ & _ & _ & _ & _ & Hic & Him).
  destruct (loaded_round_trip b class_defaults Hent Ht Hca Hep) as (fen' & Ex & Ld).
  exists fen'. split; [assumption|]. unfold new_Board, init. rewrite Ld.
  unfold set_squares. now rewrite Hic, Him.
Qed.

Lemma built_board_round_trip_witness :
  exists fen',
    export (board_of_fen "ppppppppp/8/8/8/8/8/8/4K3 b - - 3 9") = inr fen' /\
    new_Board (Some fen')
    = inr (set_squares (delete None)
             (board_of_fen "ppppppppp/8/8/8/8/8/8/4K3 b - - 3 9")).
Proof.
  apply (built_board_round_trip (Some "ppppppppp/8/8/8/8/8/8/4K3 b - - 3 9")).
  vm_compute. reflexivity.
Defined.

(** ** What [export] writes *)

Lemma grid_same (b b' : Board) :
  (forall k, In k all_squares -> squares b' !! k = squares b !! k) ->
  grid b' = grid b.
Proof.
  intros H. unfold grid. apply map_ext_in. intros x Hx. apply map_ext_in.
  intros y Hy. unfold dict_get. rewrite H; [reflexivity|].
  unfold all_squares. apply in_flat_map. exists x. split; [assumption|].
  now apply in_map.
Qed.

(** X23: the shape of what [export] writes.  [export] raises only for the
    side to move: [TypeError] when it is [None], as on a board that was
    never loaded, and [IndexError] when it is the empty string.  Otherwise,
    whatever the dictionary holds, the string is a placement without
    spaces, one space, and the first letter of the side to move, castling,
    en passant and the two counters between single spaces; the placement,
    with its digits expanded, is eight ranks of eight cells. *)
Theorem export_writes_eight_ranks (b : Board) :
  match player_turn b with
  | None => export b = inl TypeError
  | Some EmptyString => export b = inl IndexError
  | Some (String c _) =>
      exists enc rows,
        export b
        = inr (enc ++ " " ++
               py.join " " [String c EmptyString; castling b; en_passant b;
                            py.str (halfmove_clock b);
                            py.str (fullmove_number b)]) /\
        no_space enc = true /\
        py.split "/" (py.sub_digits enc) = rows /\
        length rows = 8%nat /\
        Forall (fun r => String.length r = 8%nat) rows
  end.
Proof.
  rewrite export_run. destruct (player_turn b) as [[|c t]|]; try reflexivity.
  exists (replace_spaces (py.join "/" (map row_string (grid b)))),
         (map row_string (grid b)).
  split; [reflexivity|]. split; [apply replace_spaces_no_space|].
  split; [apply placement_round_trip|]. split; [reflexivity|].
  apply Forall_map, List.Forall_forall. intros os Hos. unfold grid in Hos.
  apply in_map_iff in Hos as (x & <- & _).
  now destruct (row_string_facts (map (fun y => dict_get b (square_key x y))
                                      [0; 1; 2; 3; 4; 5; 6; 7])) as (_ & _ & ->).
Qed.

(** X24: [export] reads the sixty-four squares only.  An entry stored under
    any other key, [None] or a name that is no square, changes nothing of
    what [export] returns. *)
Theorem export_ignores_other_keys (b : Board) (k : key) (v : option Piece) :
  ~ In k all_squares -> export (set_squares (insert k v) b) = export b.
Proof.
  intros Hk. rewrite !export_run.
  assert (E : grid (set_squares (insert k v) b) = grid b).
  { apply grid_same. intros k' Hk'. cbn [squares set_squares].
    apply lookup_insert_ne. now intros ->. }
  now rewrite E.
Qed.

Lemma export_ignores_other_keys_witness :
  export (set_squares (insert (Some "e4") (Some (mkPiece Queen black))) start_board)
  = export start_board.
Proof.
  apply (export_ignores_other_keys start_board (Some "e4")
           (Some (mkPiece Queen black))).
  intros H. apply all_squares_named in H as (s & [= <-] & Hs). discriminate Hs.
Defined.

(** X25: run lengths of a rank.  For a rank of at most nine cells that
    holds no digit, what [replace_spaces] writes has no space, and
    expanding its digits again gives the rank back. *)
Theorem rank_run_lengths_expand_back (r : string) :
  no_digit r = true -> (String.length r <= 9)%nat ->
  no_space (replace_spaces r) = true /\ py.sub_digits (replace_spaces r) = r.
Proof.
  intros Hd Hl. split; [apply replace_spaces_no_space|now apply replace_spaces_row].
Qed.

Lemma rank_run_lengths_expand_back_witness :
  no_space (replace_spaces "  p  PK ") = true /\
  py.sub_digits (replace_spaces "  p  PK ") = "  p  PK ".
Proof.
  apply (rank_run_lengths_expand_back "  p  PK "); [reflexivity|simpl; lia].
Defined.

(** ** The square under the pointer *)

(** X26: the square of a click.  With a positive square size, a pixel
    inside the eight by eight squares is turned into the name of a square,
    whose coordinates are the row counted from the bottom and the column
    counted from the left; a pixel to the right of or below the board has no
    name; a square size of zero raises [ZeroDivisionError]. *)
Theorem click_names_the_square (square_size x y : Z) :
  (0 < square_size)%Z -> (0 <= x)%Z -> (0 <= y)%Z ->
  gui.click_position 0 x y = gui.ZeroDivisionError /\
  (if ((x <? 8 * square_size) && (y <? 8 * square_size))%Z
   then exists s,
       gui.click_position square_size x y = gui.Returned (inr (Some s)) /\
       is_square s = true /\
       number_notation (Some s)
       = inr (Some (7 - y / square_size, x / square_size)%Z)
   else gui.click_position square_size x y = gui.Returned (inr None)).
Proof.
  intros Hs Hx Hy. split; [reflexivity|]. unfold gui.click_position.
  destruct (Z.eqb_spec square_size 0) as [->|_]; [lia|].
  pose proof (Z.div_pos x square_size Hx Hs) as Hqx.
  pose proof (Z.div_pos y square_size Hy Hs) as Hqy.
  destruct (x <? 8 * square_size)%Z eqn:Ex; cbn [andb].
  - apply Z.ltb_lt in Ex. destruct (y <? 8 * square_size)%Z eqn:Ey.
    + apply Z.ltb_lt in Ey.
      assert (x / square_size < 8)%Z by (apply Z.div_lt_upper_bound; lia).
      assert (y / square_size < 8)%Z by (apply Z.div_lt_upper_bound; lia).
      destruct (letter_notation_named (7 - y / square_size) (x / square_size))
        as (s & E1 & E2 & E3); [lia..|].
      exists s. now rewrite E1.
    + apply Z.ltb_ge in Ey.
      assert (8 <= y / square_size)%Z by (apply Z.div_le_lower_bound; lia).
      unfold letter_notation, is_in_bounds. cbn [fst snd].
      replace (7 - y / square_size <? 0)%Z with true by (symmetry; apply Z.ltb_lt; lia).
      now rewrite !orb_true_r.
  - apply Z.ltb_ge in Ex.
    assert (8 <= x / square_size)%Z by (apply Z.div_le_lower_bound; lia).
    unfold letter_notation, is_in_bounds. cbn [fst snd].
    replace (x / square_size >? 7)%Z with true by (symmetry; apply Z.gtb_lt; lia).
    now rewrite !orb_true_r.
Qed.

Lemma click_names_the_square_witness :
  gui.click_position 0 300 100 = gui.ZeroDivisionError /\
  (if ((300 <? 8 * 64) && (100 <? 8 * 64))%Z
   then exists s,
       gui.click_position 64 300 100 = gui.Returned (inr (Some s)) /\
       is_square s = true /\
       number_notation (Some s) = inr (Some (7 - 100 / 64, 300 / 64)%Z)
   else gui.click_position 64 300 100 = gui.Returned (inr None)).
Proof. apply (click_names_the_square 64 300 100); lia. Defined.
